(** * Xiaohongshu batch processor: a shallow embedding of the folder pipeline

    The development follows [batch_processor.py], [ai_services.py] and the
    stand-alone image script.  Python values are modelled as the program
    has them:

    - a [str] is a list of Unicode code points (so that slicing, [strip]
      and the CJK punctuation table of [create_safe_filename] mean what
      they mean in Python);
    - a [pathlib.Path] is the list of its parts, relative to the working
      directory; absolute paths and symbolic links are not modelled;
    - the file system is a finite map from canonical paths to nodes;
    - exceptions are values of an inductive type, and effectful code runs
      in a small state-and-exception monad whose state survives a raise,
      as in Python;
    - OpenCV, the text codecs and the three chat-completion services are
      interfaces (type classes): the program is proved correct for every
      implementation of them. *)

From Stdlib Require Import ZArith NArith List Lia Ascii String.
From stdpp Require Import base option list gmap strings pretty.

Local Open Scope N_scope.
Local Open Scope list_scope.

(** ** Python strings *)

Abbreviation str := (list N).

(** An ASCII literal as a Python string. *)
Definition lit (s : string) : str :=
  List.map N_of_ascii (list_ascii_of_string s).

Definition str_eqb (a b : str) : bool := bool_decide (a = b).
Arguments str_eqb : simpl never.

(** [str.isspace] on one code point: the characters [str.strip()] removes. *)
Definition is_space (c : N) : bool :=
  ((9 <=? c) && (c <=? 13)) || ((28 <=? c) && (c <=? 32))
  || (c =? 133) || (c =? 160) || (c =? 5760)
  || ((8192 <=? c) && (c <=? 8202))
  || (c =? 8232) || (c =? 8233) || (c =? 8239) || (c =? 8287) || (c =? 12288).

Fixpoint drop_while (P : N → bool) (s : str) : str :=
  match s with
  | [] => []
  | c :: s' => if P c then drop_while P s' else s
  end.

Definition drop_while_end (P : N → bool) (s : str) : str :=
  rev (drop_while P (rev s)).

(** [s.strip()] *)
Definition py_strip (s : str) : str :=
  drop_while_end is_space (drop_while is_space s).

Definition mem (c : N) (s : str) : bool := existsb (N.eqb c) s.

(** [s.replace(c, '')] for a one-character [c]. *)
Definition remove_char (c : N) (s : str) : str :=
  List.filter (fun x => negb (x =? c)) s.

(** [s.lower()] restricted to the ASCII letters.  The program only compares
    lowered suffixes against ASCII extensions; no other code point lowers
    to one of the letters that occur in them. *)
Definition lower_char (c : N) : N :=
  if (65 <=? c) && (c <=? 90) then c + 32 else c.
Definition py_lower (s : str) : str := List.map lower_char s.

(** [str(n)] for a non-negative [int]. *)
Definition str_of_int (n : N) : str := lit (pretty n).

(** [sep.join(parts)] *)
Fixpoint py_join (sep : str) (parts : list str) : str :=
  match parts with
  | [] => []
  | [p] => p
  | p :: rest => p ++ sep ++ py_join sep rest
  end.

(** [s.split(sep)] for a one-character separator. *)
Fixpoint split_on (sep : N) (s : str) : list str :=
  match s with
  | [] => [[]]
  | c :: s' =>
      if c =? sep then [] :: split_on sep s'
      else match split_on sep s' with
           | seg :: segs => (c :: seg) :: segs
           | [] => [[c]]
           end
  end.

(** Python truthiness of a string: [bool(s)]. *)
Definition nonempty (s : str) : bool :=
  match s with [] => false | _ => true end.

(** ** [BatchProcessor.create_safe_filename] *)

(** The 37 code points of the [punctuation] literal, in source order. *)
Definition punctuation : str :=
  [0x300a; 0x300b; 0x22; 0x22; 0x300c; 0x300d; 0x3010; 0x3011; 0x28; 0x29;
   0xff08; 0xff09; 0x5b; 0x5d; 0xff3b; 0xff3d; 0x3c; 0x3e; 0x300a; 0x300b;
   0xff0c; 0x3002; 0xff01; 0xff1f; 0xff1b; 0xff1a; 0x3001; 0x2c; 0x2e; 0x22;
   0x27; 0x21; 0x3f; 0x3b; 0x3a; 0x7e; 0x60].

(** The nine code points of the [invalid_chars] literal: less-than,
    greater-than, colon, double quote, slash, backslash, bar, question
    mark and asterisk. *)
Definition invalid_chars : str := [60; 62; 58; 34; 47; 92; 124; 63; 42].

Definition create_safe_filename (title : str) : str :=
  let title := py_strip title in
  let title := drop_while (fun c => mem c punctuation) title in
  let title := drop_while_end (fun c => mem c punctuation) title in
  let title := fold_left (fun t c => remove_char c t) invalid_chars title in
  take 100 (py_strip title).

(** ** Paths *)

Abbreviation path := (list (list N)).

Definition slash : N := 47.
Definition dot : str := [46].
Definition dotdot : str := [46; 46].

(** [Path(s)]: split on [/], drop empty and [.] components. *)
Definition Path (s : str) : path :=
  List.filter (fun c => nonempty c && negb (str_eqb c dot)) (split_on slash s).

(** [str(p)] *)
Definition path_str (p : path) : str :=
  match p with
  | [] => dot
  | _ => py_join [slash] p
  end.

(** [p / s] for a relative right operand. *)
Definition path_join (p : path) (s : str) : path := p ++ Path s.

(** [p.name] *)
Definition path_name (p : path) : str := List.last p [].

(** [p.parent] *)
Definition path_parent (p : path) : path := removelast p.

(** [s.rfind('.')], as the index of the last dot if there is one. *)
Fixpoint rfind_dot (s : str) : option nat :=
  match s with
  | [] => None
  | c :: s' =>
      match rfind_dot s' with
      | Some i => Some (S i)
      | None => if c =? 46 then Some O else None
      end
  end.

(** [p.suffix]: the part of the name from its last dot, unless that dot is
    the first or the last character of the name. *)
Definition path_suffix (p : path) : str :=
  let name := path_name p in
  match rfind_dot name with
  | Some i =>
      if (Nat.ltb 0 i && Nat.ltb i (length name - 1))%nat then drop i name else []
  | None => []
  end.

(** [Path(f"{p}_{counter}")] *)
Definition with_counter (p : path) (counter : N) : path :=
  Path (path_str p ++ lit "_" ++ str_of_int counter).

Example safe_filename_trims :
  create_safe_filename (lit " <<Hello: world?>>! ") = lit "Hello world".
Proof. reflexivity. Qed.

Example safe_filename_dotdot : create_safe_filename (lit "*..*") = dotdot.
Proof. reflexivity. Qed.

Example with_counter_3 :
  with_counter [lit "out"; lit "title"] 3 = [lit "out"; lit "title_3"].
Proof. vm_compute. reflexivity. Qed.

Example with_counter_cwd : with_counter [] 1 = [lit "._1"].
Proof. vm_compute. reflexivity. Qed.

Example suffix_of_name : path_suffix [lit "in"; lit "a.b.JPG"] = lit ".JPG".
Proof. reflexivity. Qed.

Example suffix_hidden : path_suffix [lit ".jpg"] = [].
Proof. reflexivity. Qed.

(** ** Exceptions and results *)

(** The exceptions the program can see.  All of them are subclasses of
    [Exception], which is what every [except] clause of the program
    catches.  [Exception]s raised by the program itself carry their
    message as structure. *)
Inductive exn :=
| FileNotFoundError
| FileExistsError
| NotADirectoryError
| IsADirectoryError
| ShutilError                     (* shutil.Error *)
| UnicodeError                    (* a codec refused the data *)
| TypeError
| AttributeError
| IndexError
| KeyError
| UnpackError (got : nat)         (* ValueError: tuple unpacking of a wrong length *)
| UnsupportedFilter (msg : str)   (* the ValueError that apply_filter raises *)
| Cv2Error                        (* cv2.error *)
| ClientError (msg : str)         (* raised by an HTTP or SDK client *)
| AllModelsFailed (e e2 e3 : exn) (* Exception: All models failed. ... *)
| KimiTitleFailed (e : exn)       (* Exception: Kimi title generation failed: ... *)
| DocumentReadFailed              (* Exception raised when no text was read *)
| RewriteFailed                   (* Exception raised on an empty rewrite *)
| TitleFailed                     (* Exception raised on an empty title *)
| ImagesFailed                    (* Exception raised when no image was written *)
| FuelExhausted.                  (* never raised: see [free_path_total] *)

Inductive result (A : Type) : Type :=
| Ok (a : A)
| Raise (e : exn).
Arguments Ok {A} a.
Arguments Raise {A} e.

Definition bindR {A B} (r : result A) (k : A → result B) : result B :=
  match r with
  | Ok a => k a
  | Raise e => Raise e
  end.

Definition of_option {A} (e : exn) (o : option A) : result A :=
  match o with
  | Some a => Ok a
  | None => Raise e
  end.

Definition is_ok {A} (r : result A) : bool :=
  match r with Ok _ => true | Raise _ => false end.

Declare Scope result_scope.
Delimit Scope result_scope with R.
Notation "x <- c1 ;; c2" := (bindR c1 (fun x => c2))
  (at level 100, c1 at next level, right associativity) : result_scope.

(** ** The file system *)

Abbreviation bytes := (list N).

Inductive node :=
| File (data : bytes)
| Dir.

Abbreviation fs := (gmap (list (list N)) node).

(** The node at a canonical location; the root (the working directory) is a
    directory that always exists. *)
Definition node_at (f : fs) (q : path) : option node :=
  match q with
  | [] => Some Dir
  | _ => f !! q
  end.

(** One step of path resolution: [..] goes up (and stays at the root). *)
Definition enter (cur : path) (c : str) : path :=
  if str_eqb c dotdot then removelast cur else cur ++ [c].

(** Path resolution as the operating system does it: every component is
    looked up in a directory that must exist. *)
Fixpoint walk (f : fs) (cur : path) (p : path) : result path :=
  match p with
  | [] => Ok cur
  | c :: rest =>
      match node_at f cur with
      | Some Dir => walk f (enter cur c) rest
      | Some (File _) => Raise NotADirectoryError
      | None => Raise FileNotFoundError
      end
  end.

Definition resolve (f : fs) (p : path) : result path := walk f [] p.

(** [os.stat] *)
Definition stat (f : fs) (p : path) : result node :=
  (q <- resolve f p ;; of_option FileNotFoundError (node_at f q))%R.

(** [Path.exists()] *)
Definition path_exists (f : fs) (p : path) : bool := is_ok (stat f p).

(** [Path.is_dir()] *)
Definition path_is_dir (f : fs) (p : path) : bool :=
  match stat f p with
  | Ok Dir => true
  | _ => false
  end.

(** [os.mkdir] *)
Definition os_mkdir (f : fs) (p : path) : result fs :=
  (q <- resolve f p ;;
   match node_at f q with
   | Some _ => Raise FileExistsError
   | None => Ok (<[q := Dir]> f)
   end)%R.

(** [Path.mkdir(parents=False, exist_ok=True)] *)
Definition mkdir_exist_ok (f : fs) (p : path) : result fs :=
  match os_mkdir f p with
  | Ok f' => Ok f'
  | Raise FileNotFoundError => Raise FileNotFoundError
  | Raise e => if path_is_dir f p then Ok f else Raise e
  end.

(** [Path.mkdir(parents=True, exist_ok=True)]; the recursion of pathlib on
    [self.parent] is structural in the number of parts. *)
Fixpoint mkdir_parents_go (n : nat) (f : fs) (p : path) : result fs :=
  match os_mkdir f p with
  | Ok f' => Ok f'
  | Raise FileNotFoundError =>
      match n, p with
      | S n', _ :: _ =>
          (f1 <- mkdir_parents_go n' f (path_parent p) ;; mkdir_exist_ok f1 p)%R
      | _, _ => Raise FileNotFoundError
      end
  | Raise e => if path_is_dir f p then Ok f else Raise e
  end.

Definition mkdir_parents (f : fs) (p : path) : result fs :=
  mkdir_parents_go (length p) f p.

(** [open(p, 'rb').read()] *)
Definition read_file (f : fs) (p : path) : result bytes :=
  (n <- stat f p ;;
   match n with
   | File data => Ok data
   | Dir => Raise IsADirectoryError
   end)%R.

(** [open(p, 'wb').write(data)] *)
Definition write_file (f : fs) (p : path) (data : bytes) : result fs :=
  (q <- resolve f p ;;
   match node_at f q with
   | Some Dir => Raise IsADirectoryError
   | _ => Ok (<[q := File data]> f)
   end)%R.

(** The name of [k] as a direct child of [q], if it is one. *)
Fixpoint child_name (q k : path) : option str :=
  match q, k with
  | [], [n] => Some n
  | c :: q', d :: k' => if str_eqb c d then child_name q' k' else None
  | _, _ => None
  end.

(** [os.listdir] *)
Definition listdir (f : fs) (p : path) : result (list str) :=
  (q <- resolve f p ;;
   match node_at f q with
   | Some Dir => Ok (omap (fun kv => child_name q (fst kv)) (map_to_list f))
   | Some (File _) => Raise NotADirectoryError
   | None => Raise FileNotFoundError
   end)%R.

(** Exchange the subtrees rooted at [a] and [b]. *)
Fixpoint strip_prefix (a p : path) : option path :=
  match a, p with
  | [], _ => Some p
  | c :: a', d :: p' => if str_eqb c d then strip_prefix a' p' else None
  | _ :: _, [] => None
  end.

Definition rebase (a b p : path) : path :=
  match strip_prefix a p with
  | Some r => b ++ r
  | None =>
      match strip_prefix b p with
      | Some r => a ++ r
      | None => p
      end
  end.

(** [shutil.move(src, dst)] for a destination that does not exist yet, the
    only way the program calls it: a rename of the whole subtree.  Moving a
    directory into itself is refused, as is the working directory. *)
Definition shutil_move (f : fs) (src dst : path) : result fs :=
  (qs <- resolve f src ;;
   _ <- of_option FileNotFoundError (node_at f qs) ;;
   qd <- resolve f dst ;;
   match node_at f qd with
   | Some _ => Raise ShutilError
   | None =>
       match strip_prefix qs qd with
       | Some _ => Raise ShutilError
       | None => Ok (kmap (rebase qs qd) f)
       end
   end)%R.

(** ** Python values that cross the service boundary *)

(** A parsed JSON document, which is also the type of what
    [rewrite_content] can return: [None], a string, or whatever the HTTP
    body held under [content].  [JObj] lists the items of the parsed
    [dict], whose keys are distinct. *)
#[local] Unset Elimination Schemes.
Inductive json :=
| JNull
| JBool (b : bool)
| JNum (n : Z)
| JStr (s : str)
| JArr (items : list json)
| JObj (fields : list (str * json)).
#[local] Set Elimination Schemes.

(** [bool(v)] *)
Definition truthy (v : json) : bool :=
  match v with
  | JNull => false
  | JBool b => b
  | JNum n => negb (Z.eqb n 0)
  | JStr s => nonempty s
  | JArr items => match items with [] => false | _ => true end
  | JObj fields => match fields with [] => false | _ => true end
  end.

Fixpoint assoc (k : str) (fields : list (str * json)) : option json :=
  match fields with
  | [] => None
  | (k', v) :: rest => if str_eqb k k' then Some v else assoc k rest
  end.

(** [v[k]] for a string key. *)
Definition getitem_key (v : json) (k : str) : result json :=
  match v with
  | JObj fields => of_option KeyError (assoc k fields)
  | _ => Raise TypeError
  end.

(** [v[0]] *)
Definition getitem_0 (v : json) : result json :=
  match v with
  | JArr (x :: _) => Ok x
  | JArr [] => Raise IndexError
  | JStr (c :: _) => Ok (JStr [c])
  | JStr [] => Raise IndexError
  | JObj _ => Raise KeyError
  | _ => Raise TypeError
  end.

(** A decimal [float] literal [mantissa * 10 ^ exponent], and the one
    float expression of the image script. *)
Inductive pyfloat :=
| Flit (mantissa exponent : Z)
| Fsub (a b : pyfloat).

(** ** The chat-completion services *)

Inductive provider := OpenRouter | SiliconFlow | Moonshot.

Record chat_request := {
  model : str;
  system_content : str;
  user_content : json;
  temperature : option pyfloat
}.

(** What [chat.completions.create] returns: for each choice, its
    [message.content] (a string or [None]). *)
Abbreviation completion := (list (option (list N))).

(** What [requests.post] returns: whether the status is a success, and the
    body if it parses as JSON. *)
Record http_response := {
  status_ok : bool;
  body_json : option json
}.

(** The three external services.  Each call is answered as a function of
    the request and of the number of service calls made before it, so
    that a retry may be answered differently; a [Raise] is an exception
    out of the client library. *)
Class AiServices := {
  openrouter_create : nat → chat_request → result completion;
  siliconflow_post : nat → chat_request → result http_response;
  moonshot_create : nat → chat_request → result completion
}.

(** ** Images and OpenCV *)

(** An image as [numpy] holds it: rows of pixels of channel values. *)
Abbreviation ndarray := (list (list (list Z))).

Inductive color_code :=
| COLOR_BGR2HSV | COLOR_HSV2BGR | COLOR_BGR2GRAY | COLOR_GRAY2BGR.

Inductive border_type := BORDER_CONSTANT | BORDER_REPLICATE.

(** The OpenCV and NumPy functions the program calls.  [None] stands for
    an exception out of the library ([cv2.error]); for the two codecs it
    also stands for the unsuccessful result ([None] of [imdecode],
    [is_success = False] of [imencode]), which the program treats alike. *)
Class Cv2 := {
  cv2_imdecode : bytes → option ndarray;
  cv2_imencode_jpg : ndarray → option bytes;
  cv2_convertScaleAbs : ndarray → pyfloat → Z → option ndarray;
  cv2_cvtColor : ndarray → color_code → option ndarray;
  cv2_split : ndarray → option (list ndarray);
  cv2_merge : list ndarray → option ndarray;
  cv2_add : ndarray → Z → option ndarray;
  np_clip : ndarray → Z → Z → ndarray;
  cv2_copyMakeBorder :
    ndarray → Z → Z → Z → Z → border_type → list Z → option ndarray;
  cv2_GaussianBlur : ndarray → Z * Z → Z → option ndarray;
  cv2_addWeighted : ndarray → pyfloat → ndarray → pyfloat → Z → option ndarray;
  cv2_filter2D : ndarray → Z → list (list Z) → option ndarray;
  cv2_bitwise_not : ndarray → option ndarray
}.

Definition cv {A} (o : option A) : result A := of_option Cv2Error o.

(** ** Text codecs and the document library *)

Inductive encoding := utf_8 | gbk | gb2312 | big5.

(** [decode] is what reading a text file in the given encoding yields
    ([None]: [UnicodeDecodeError]); [encode_utf8] what writing one stores;
    [docx_paragraphs] the paragraph texts of a word-processor document
    ([None]: the document library raised). *)
Class Codecs := {
  decode : encoding → bytes → option str;
  encode_utf8 : str → option bytes;
  docx_paragraphs : bytes → option (list str)
}.

(** [a, b, c = planes] *)
Definition unpack3 (planes : list ndarray) : result (ndarray * ndarray * ndarray) :=
  match planes with
  | [a; b; c] => Ok (a, b, c)
  | _ => Raise (UnpackError (length planes))
  end.

(** ** [class ImageProcessor] of [batch_processor.py] *)

Module ImageProcessor.
Section with_cv2.
Context `{Cv2}.

(** The message prefix of the [ValueError], as code points. *)
Definition unsupported_prefix : str :=
  [0x4e0d; 0x652f; 0x6301; 0x7684; 0x6ee4; 0x955c; 0x7c7b; 0x578b; 0x3a; 0x20].

Definition apply_filter (image : ndarray) (filter_type : str) : result ndarray :=
  if str_eqb filter_type (lit "natural") then
    (let contrast_factor := Flit 11 (-1) in
     image <- cv (cv2_convertScaleAbs image contrast_factor 0) ;;
     hsv <- cv (cv2_cvtColor image COLOR_BGR2HSV) ;;
     planes <- cv (cv2_split hsv) ;;
     hsv3 <- unpack3 planes ;;
     let '(h, s, v) := hsv3 in
     s <- cv (cv2_add s 10) ;;
     let s := np_clip s 0 255 in
     hsv <- cv (cv2_merge [h; s; v]) ;;
     cv (cv2_cvtColor hsv COLOR_HSV2BGR))%R
  else if str_eqb filter_type (lit "warm") then
    (let increase_brightness := 10%Z in
     image <- cv (cv2_convertScaleAbs image (Flit 105 (-2)) increase_brightness) ;;
     planes <- cv (cv2_split image) ;;
     bgr <- unpack3 planes ;;
     let '(b, g, r) := bgr in
     r <- cv (cv2_add r 5) ;;
     let r := np_clip r 0 255 in
     cv (cv2_merge [b; g; r]))%R
  else Raise (UnsupportedFilter (unsupported_prefix ++ filter_type)).

(** [int(height * 19 / 20)]: a float quotient, truncated.  Below 2^49 the
    float quotient of two integers truncates to their integer quotient,
    and an array has far fewer rows. *)
Definition crop_bottom (image : ndarray) : ndarray :=
  let height := Z.of_nat (length image) in
  let crop_height := (height * 19 / 20)%Z in
  take (Z.to_nat crop_height) image.

Definition default_border_size : Z := 20.
Definition default_color : list Z := [255; 255; 255]%Z.

Definition add_border (image : ndarray) (border_size : Z) (color : list Z)
  : result ndarray :=
  cv (cv2_copyMakeBorder image border_size border_size border_size border_size
        BORDER_CONSTANT color).
End with_cv2.
End ImageProcessor.

(** ** The stand-alone image script *)

Module ImageScript.
Section with_cv2.
Context `{Cv2}.

Definition apply_filter (image : ndarray) (filter_type : str) : result ndarray :=
  if str_eqb filter_type (lit "natural") then
    (let contrast_factor := Flit 11 (-1) in
     image <- cv (cv2_convertScaleAbs image contrast_factor 0) ;;
     hsv <- cv (cv2_cvtColor image COLOR_BGR2HSV) ;;
     planes <- cv (cv2_split hsv) ;;
     hsv3 <- unpack3 planes ;;
     let '(h, s, v) := hsv3 in
     s <- cv (cv2_add s 10) ;;
     let s := np_clip s 0 255 in
     hsv <- cv (cv2_merge [h; s; v]) ;;
     cv (cv2_cvtColor hsv COLOR_HSV2BGR))%R
  else if str_eqb filter_type (lit "warm") then
    (let increase_brightness := 10%Z in
     image <- cv (cv2_convertScaleAbs image (Flit 105 (-2)) increase_brightness) ;;
     planes <- cv (cv2_split image) ;;
     bgr <- unpack3 planes ;;
     let '(b, g, r) := bgr in
     r <- cv (cv2_add r 5) ;;
     let r := np_clip r 0 255 in
     cv (cv2_merge [b; g; r]))%R
  else if str_eqb filter_type (lit "cool") then
    (planes <- cv (cv2_split image) ;;
     bgr <- unpack3 planes ;;
     let '(b, g, r) := bgr in
     b <- cv (cv2_add b 5) ;;
     let b := np_clip b 0 255 in
     cv (cv2_merge [b; g; r]))%R
  else if str_eqb filter_type (lit "soft") then
    (blur <- cv (cv2_GaussianBlur image (3, 3)%Z 0) ;;
     let alpha := Flit 9 (-1) in
     cv (cv2_addWeighted image alpha blur (Fsub (Flit 1 0) alpha) 0))%R
  else if str_eqb filter_type (lit "bright") then
    cv (cv2_convertScaleAbs image (Flit 11 (-1)) 10)
  else if str_eqb filter_type (lit "clarity") then
    (let kernel := [[-1; -1; -1]; [-1; 9; -1]; [-1; -1; -1]]%Z in
     filtered_image <- cv (cv2_filter2D image (-1) kernel) ;;
     Ok (np_clip filtered_image 0 255))%R
  else if str_eqb filter_type (lit "grayscale") then
    cv (cv2_cvtColor image COLOR_BGR2GRAY)
  else if str_eqb filter_type (lit "negative") then
    cv (cv2_bitwise_not image)
  else Raise (UnsupportedFilter (lit "Unsupported filter type")).

Definition crop_bottom (image : ndarray) : ndarray :=
  let height := Z.of_nat (length image) in
  let crop_height := (height * 19 / 20)%Z in
  take (Z.to_nat crop_height) image.

Definition default_border_size : Z := 10.
Definition default_color : list Z := [255; 255; 255]%Z.

Definition add_border (image : ndarray) (border_size : Z) (color : list Z)
  : result ndarray :=
  (bordered_image <-
     cv (cv2_copyMakeBorder image border_size border_size border_size
           border_size BORDER_CONSTANT color) ;;
   Ok bordered_image)%R.
End with_cv2.
End ImageScript.

(** ** The world and the monad of the program *)

(** What the program does that can be observed: the calls it makes, in
    order, with their arguments; reading and writing an image are logged
    with what they returned.  [ev_attempt] is the progress line that
    [process_folder_with_retry] prints at the start of every attempt. *)
Inductive event :=
| ev_attempt (attempt : nat)
| ev_validate_input_folder (folder_path : str)
| ev_read_document (doc_path : option str)
| ev_rewrite_content (text : str) (prompt_template : str)
| ev_request (p : provider) (req : chat_request)
| ev_generate_title (text : json) (prompt_template : str)
| ev_create_output_folder (title : str)
| ev_process_images (image_paths : list str) (output_dir : path)
| ev_read_image (image_path : str) (image : option ndarray)
| ev_apply_filter (image : ndarray) (filter_type : str)
| ev_crop_bottom (image : ndarray)
| ev_add_border (image : ndarray) (border_size : Z) (color : list Z)
| ev_write_image (image_path : str) (image : ndarray) (written : bool)
| ev_write_text (file : path) (content : json)
| ev_move_source_folder (source_folder : str)
| ev_sleep (seconds : Z).

Record world := {
  w_fs : fs;            (* the file system *)
  w_calls : nat;        (* service calls made so far *)
  w_log : list event    (* events so far, oldest first *)
}.

Definition M (A : Type) : Type := world → result A * world.

Definition ret {A} (a : A) : M A := fun w => (Ok a, w).

Definition bindM {A B} (m : M A) (k : A → M B) : M B :=
  fun w =>
    match m w with
    | (Ok a, w') => k a w'
    | (Raise e, w') => (Raise e, w')
    end.

Definition raise {A} (e : exn) : M A := fun w => (Raise e, w).

(** [try: m  except Exception as e: h e] *)
Definition try_except {A} (m : M A) (h : exn → M A) : M A :=
  fun w =>
    match m w with
    | (Ok a, w') => (Ok a, w')
    | (Raise e, w') => h e w'
    end.

(** Run [m] and hand its outcome to the continuation. *)
Definition attempt_of {A} (m : M A) : M (result A) :=
  fun w => let '(r, w') := m w in (Ok r, w').

Definition liftR {A} (r : result A) : M A := fun w => (r, w).

Definition log (e : event) : M unit :=
  fun w => (Ok tt, {| w_fs := w_fs w; w_calls := w_calls w; w_log := w_log w ++ [e] |}).

Definition get_fs : M fs := fun w => (Ok (w_fs w), w).

Definition put_fs (f : fs) : M unit :=
  fun w => (Ok tt, {| w_fs := f; w_calls := w_calls w; w_log := w_log w |}).

(** A file-system operation that may fail and leaves the state alone then. *)
Definition lift_fs (op : fs → result fs) : M unit :=
  fun w =>
    match op (w_fs w) with
    | Ok f' => (Ok tt, {| w_fs := f'; w_calls := w_calls w; w_log := w_log w |})
    | Raise e => (Raise e, w)
    end.

(** A service call: logged, answered by the service, and counted. *)
Definition request {A} (p : provider) (answer : nat → chat_request → result A)
    (req : chat_request) : M A :=
  fun w =>
    (answer (w_calls w) req,
     {| w_fs := w_fs w; w_calls := S (w_calls w);
        w_log := w_log w ++ [ev_request p req] |}).

Declare Scope M_scope.
Delimit Scope M_scope with M.
Notation "x <- c1 ;; c2" := (bindM c1 (fun x => c2))
  (at level 100, c1 at next level, right associativity) : M_scope.
Notation "c1 ;; c2" := (bindM c1 (fun _ => c2))
  (at level 100, right associativity) : M_scope.

Definition run {A} (m : M A) (w : world) : result A := fst (m w).
Definition exec {A} (m : M A) (w : world) : world := snd (m w).

(** ** [ai_services.py] *)

Module ai_services.
Section with_services.
Context `{AiServices}.

Definition message_content (c : option str) : json :=
  match c with
  | Some s => JStr s
  | None => JNull
  end.

(** [completion.choices[0].message.content] *)
Definition first_choice_content (c : completion) : result json :=
  match c with
  | [] => Raise IndexError
  | x :: _ => Ok (message_content x)
  end.

(** [response.raise_for_status()] *)
Definition raise_for_status (response : http_response) : result unit :=
  if status_ok response then Ok tt else Raise (ClientError (lit "HTTPError")).

(** [response.json()] *)
Definition response_json (response : http_response) : result json :=
  of_option (ClientError (lit "JSONDecodeError")) (body_json response).

(** The three requests of [rewrite_content]. *)
Definition openrouter_request (text prompt_template : str) : chat_request :=
  {| model := lit "deepseek/deepseek-r1-0528:free";
     system_content := prompt_template;
     user_content := JStr text;
     temperature := None |}.

Definition siliconflow_request (text prompt_template : str) : chat_request :=
  {| model := lit "deepseek-ai/DeepSeek-V3.1";
     system_content := prompt_template;
     user_content := JStr text;
     temperature := None |}.

Definition moonshot_request (text prompt_template : str) : chat_request :=
  {| model := lit "kimi-k2-0711-preview";
     system_content := prompt_template;
     user_content := JStr text;
     temperature := Some (Flit 8 (-1)) |}.

(** [result["choices"][0]["message"]["content"]] after the status check. *)
Definition response_content (response : http_response) : result json :=
  (_ <- raise_for_status response ;;
   result <- response_json response ;;
   choices <- getitem_key result (lit "choices") ;;
   choice <- getitem_0 choices ;;
   message <- getitem_key choice (lit "message") ;;
   getitem_key message (lit "content"))%R.

Definition rewrite_content (text : str) (prompt_template : str) : M json :=
  (log (ev_rewrite_content text prompt_template) ;;
   try_except
     (completion <-
        request OpenRouter openrouter_create
          (openrouter_request text prompt_template) ;;
      liftR (first_choice_content completion))
     (fun e =>
        try_except
          (response <-
             request SiliconFlow siliconflow_post
               (siliconflow_request text prompt_template) ;;
           liftR (response_content response))
          (fun e2 =>
             try_except
               (completion <-
                  request Moonshot moonshot_create
                    (moonshot_request text prompt_template) ;;
                liftR (first_choice_content completion))
               (fun e3 => raise (AllModelsFailed e e2 e3)))))%M.

Definition generate_title (text : json) (prompt_template : str) : M json :=
  (log (ev_generate_title text prompt_template) ;;
   try_except
     (completion <-
        request Moonshot moonshot_create
          {| model := lit "kimi-k2-0711-preview";
             system_content := prompt_template;
             user_content := text;
             temperature := Some (Flit 6 (-1)) |} ;;
      liftR (first_choice_content completion))
     (fun e => raise (KimiTitleFailed e)))%M.
End with_services.
End ai_services.

(** ** [class DocumentReader] *)

Module DocumentReader.
Section with_codecs.
Context `{Codecs}.

(** The loop over the encodings: the first that decodes wins. *)
Fixpoint read_txt_loop (encodings : list encoding) (data : bytes) : option str :=
  match encodings with
  | [] => None
  | enc :: rest =>
      match decode enc data with
      | Some text => Some (py_strip text)
      | None => read_txt_loop rest data
      end
  end.

(** Only [UnicodeDecodeError] is caught: a failing [open] propagates. *)
Definition read_txt_file (f : fs) (file_path : str) : result (option str) :=
  (data <- read_file f (Path file_path) ;;
   Ok (read_txt_loop [utf_8; gbk; gb2312; big5] data))%R.

Definition read_docx_file (f : fs) (file_path : str) : option str :=
  match read_file f (Path file_path) with
  | Ok data =>
      match docx_paragraphs data with
      | Some paragraphs =>
          let content :=
            List.filter (fun text => nonempty (py_strip text)) paragraphs in
          Some (py_join [10] content)
      | None => None
      end
  | Raise _ => None
  end.

Definition read_md_file (f : fs) (file_path : str) : option str :=
  match read_file f (Path file_path) with
  | Ok data =>
      match decode utf_8 data with
      | Some text => Some (py_strip text)
      | None => None
      end
  | Raise _ => None
  end.
End with_codecs.
End DocumentReader.

(** ** [class BatchProcessor] *)

(** The fields of the processor that the folder pipeline reads. *)
Record config := {
  output_folder_path : str;
  processed_folder_path : str;
  rewrite_prompt : str;
  title_prompt : str
}.

Record validation := {
  valid : bool;
  images : list str;
  document : option str;
  errors : list str
}.

Module BatchProcessor.

Definition image_extensions : list str :=
  [lit ".jpg"; lit ".jpeg"; lit ".png"; lit ".bmp"; lit ".tiff"].

Definition in_set (s : str) (set : list str) : bool := existsb (str_eqb s) set.

(** The three document names: the two code points U+6B63 U+6587 followed
    by the extension. *)
Definition doc_patterns : list str :=
  [[27491; 25991] ++ lit ".txt"; [27491; 25991] ++ lit ".docx";
   [27491; 25991] ++ lit ".md"].

(** The names of the two files written into the output folder. *)
Definition content_name : str := [27491; 25991] ++ lit ".md".
Definition title_name : str := [26631; 39064] ++ lit ".txt".

(** The four messages of [validate_input_folder], as code points: the
    folder does not exist; several documents found; no document found;
    no image found. *)
Definition err_folder_missing : str := [25991; 20214; 22841; 19981; 23384; 22312].
Definition err_many_documents : str :=
  [21457; 29616; 22810; 20010; 27491; 25991; 25991; 20214].
Definition err_no_document : str := [26410; 25214; 21040; 27491; 25991; 25991; 20214].
Definition err_no_image : str := [26410; 25214; 21040; 22270; 29255; 25991; 20214].

(** The loop [while output_path.exists(): ...].  It stops within
    [size f + 2] tests (see [while_exists_total]); the fuel makes the
    recursion structural. *)
Fixpoint while_exists (fuel : nat) (f : fs) (original_path output_path : path)
    (counter : N) : option path :=
  match fuel with
  | O => None
  | S fuel' =>
      if path_exists f output_path
      then while_exists fuel' f original_path
             (with_counter original_path counter) (counter + 1)
      else Some output_path
  end.

Definition free_path (f : fs) (original_path : path) : result path :=
  of_option FuelExhausted
    (while_exists (size f + 2) f original_path original_path 1).

(** The part of [validate_input_folder] after the existence test. *)
Definition validate_existing (f : fs) (folder : path) : result validation :=
  (names <- listdir f folder ;;
   let images :=
     List.map (fun name => path_str (folder ++ [name]))
       (List.filter
          (fun name =>
             in_set (py_lower (path_suffix (folder ++ [name]))) image_extensions)
          names) in
   let doc_files :=
     List.map (fun pattern => path_str (path_join folder pattern))
       (List.filter (fun pattern => path_exists f (path_join folder pattern))
          doc_patterns) in
   let '(document, errors) :=
     match doc_files with
     | [] => (None, [err_no_document])
     | [doc] => (Some doc, [])
     | _ => (None, [err_many_documents])
     end in
   let errors :=
     match images with
     | [] => errors ++ [err_no_image]
     | _ => errors
     end in
   Ok {| valid := match errors with [] => true | _ => false end;
         images := images; document := document; errors := errors |})%R.

Section with_environment.
Context `{Cv2} `{Codecs} `{AiServices}.
Variable self : config.

Definition validate_input_folder (folder_path : str) : M validation :=
  (log (ev_validate_input_folder folder_path) ;;
   f <- get_fs ;;
   let folder := Path folder_path in
   if negb (path_exists f folder)
   then ret {| valid := false; images := []; document := None;
               errors := [err_folder_missing] |}
   else liftR (validate_existing f folder))%M.

Definition read_image_chinese_path (image_path : str) : M (option ndarray) :=
  (f <- get_fs ;;
   let image :=
     match read_file f (Path image_path) with
     | Ok data => cv2_imdecode data
     | Raise _ => None
     end in
   log (ev_read_image image_path image) ;;
   ret image)%M.

Definition write_image_chinese_path (image_path : str) (image : ndarray) : M bool :=
  (written <-
     match cv2_imencode_jpg image with
     | Some buffer =>
         try_except
           (lift_fs (fun f => write_file f (Path image_path) buffer) ;; ret true)
           (fun _ => ret false)
     | None => ret false
     end ;;
   log (ev_write_image image_path image written) ;;
   ret written)%M.

Fixpoint process_images_loop (image_paths : list str) (output_dir : path)
    (processed_count : N) : M N :=
  match image_paths with
  | [] => ret processed_count
  | image_path :: rest =>
      (image <- read_image_chinese_path image_path ;;
       match image with
       | None => process_images_loop rest output_dir processed_count
       | Some image =>
           log (ev_apply_filter image (lit "natural")) ;;
           filtered_image <- liftR (ImageProcessor.apply_filter image (lit "natural")) ;;
           log (ev_crop_bottom filtered_image) ;;
           let cropped_image := ImageProcessor.crop_bottom filtered_image in
           log (ev_add_border cropped_image 20 ImageProcessor.default_color) ;;
           bordered_image <-
             liftR (ImageProcessor.add_border cropped_image 20
                      ImageProcessor.default_color) ;;
           let filename := path_name (Path image_path) in
           let output_path := path_join output_dir filename in
           written <- write_image_chinese_path (path_str output_path) bordered_image ;;
           if written
           then process_images_loop rest output_dir (processed_count + 1)
           else process_images_loop rest output_dir processed_count
       end)%M
  end.

Definition process_images (image_paths : list str) (output_dir : path) : M N :=
  (log (ev_process_images image_paths output_dir) ;;
   process_images_loop image_paths output_dir 0)%M.

Definition read_document (doc_path : option str) : M (option str) :=
  (log (ev_read_document doc_path) ;;
   f <- get_fs ;;
   match doc_path with
   | None => raise TypeError
   | Some doc_path =>
       let file_ext := py_lower (path_suffix (Path doc_path)) in
       if str_eqb file_ext (lit ".txt")
       then liftR (DocumentReader.read_txt_file f doc_path)
       else if str_eqb file_ext (lit ".docx")
       then ret (DocumentReader.read_docx_file f doc_path)
       else if str_eqb file_ext (lit ".md")
       then ret (DocumentReader.read_md_file f doc_path)
       else ret None
   end)%M.

Definition create_output_folder (title : str) : M path :=
  (log (ev_create_output_folder title) ;;
   let generated_dir := Path (output_folder_path self) in
   lift_fs (fun f => mkdir_exist_ok f generated_dir) ;;
   let safe_title := create_safe_filename title in
   let output_path := path_join generated_dir safe_title in
   f <- get_fs ;;
   output_path <- liftR (free_path f output_path) ;;
   lift_fs (fun f => mkdir_parents f output_path) ;;
   ret output_path)%M.

Definition move_source_folder (source_folder : str) : M bool :=
  (log (ev_move_source_folder source_folder) ;;
   try_except
     (let processed_dir := Path (processed_folder_path self) in
      lift_fs (fun f => mkdir_exist_ok f processed_dir) ;;
      let source_path := Path source_folder in
      let target_path := path_join processed_dir (path_name source_path) in
      f <- get_fs ;;
      target_path <- liftR (free_path f target_path) ;;
      lift_fs (fun f => shutil_move f source_path target_path) ;;
      ret true)
     (fun _ => ret false))%M.

(** [with open(file, 'w', encoding='utf-8') as f: f.write(content)]:
    opening truncates; writing anything but a [str] is a [TypeError]. *)
Definition write_text (file : path) (content : json) : M unit :=
  (log (ev_write_text file content) ;;
   lift_fs (fun f => write_file f file []) ;;
   match content with
   | JStr s =>
       match encode_utf8 s with
       | Some data => lift_fs (fun f => write_file f file data)
       | None => raise UnicodeError
       end
   | _ => raise TypeError
   end)%M.

(** [time.sleep(seconds)] *)
Definition sleep (seconds : Z) : M unit := log (ev_sleep seconds).

(** The body of the [try] of one attempt.  Its value is what the attempt
    returns from the function: [False] after a failed validation, [True]
    at the end. *)
Definition attempt_body (folder_path : str) : M bool :=
  (validation <- validate_input_folder folder_path ;;
   if negb (valid validation) then ret false
   else
     original_content <- read_document (document validation) ;;
     match original_content with
     | None | Some [] => raise DocumentReadFailed
     | Some original_content =>
         rewritten_content <-
           ai_services.rewrite_content original_content (rewrite_prompt self) ;;
         if negb (truthy rewritten_content) then raise RewriteFailed
         else
           title <- ai_services.generate_title rewritten_content (title_prompt self) ;;
           if negb (truthy title) then raise TitleFailed
           else
             match title with
             | JStr title_text =>
                 output_dir <- create_output_folder title_text ;;
                 processed_images <- process_images (images validation) output_dir ;;
                 if (processed_images =? 0)%N then raise ImagesFailed
                 else
                   write_text (path_join output_dir content_name) rewritten_content ;;
                   write_text (path_join output_dir title_name) title ;;
                   _ <- move_source_folder folder_path ;;
                   ret true
             | _ => raise AttributeError
             end
     end)%M.

Fixpoint retry_loop (folder_path : str) (max_retries : Z) (attempts : list nat)
    : M bool :=
  match attempts with
  | [] => ret false
  | attempt :: rest =>
      (log (ev_attempt attempt) ;;
       outcome <- attempt_of (attempt_body folder_path) ;;
       match outcome with
       | Ok returned => ret returned
       | Raise e =>
           if (Z.of_nat attempt =? max_retries - 1)%Z then ret false
           else (sleep 2 ;; retry_loop folder_path max_retries rest)
       end)%M
  end.

Definition default_max_retries : Z := 3.

Definition process_folder_with_retry (folder_path : str) (max_retries : Z) : M bool :=
  retry_loop folder_path max_retries (seq 0 (Z.to_nat max_retries)).
End with_environment.
End BatchProcessor.

(** ** A concrete scenario

    A small implementation of the three interfaces and a small file system,
    on which the program can be run.  The image library keeps images as
    they are and encodes an image as the bytes of its first row; the
    services answer from a script indexed by the call number. *)

Module Scenario.

Definition flatten_row (image : ndarray) : bytes :=
  match image with
  | row :: _ => List.map Z.to_N (List.concat row)
  | [] => []
  end.

(** A file decodes to an image of twenty identical one-pixel rows, unless
    it is empty. *)
Definition toy_imdecode (data : bytes) : option ndarray :=
  match data with
  | [] => None
  | _ => Some (repeat [List.map Z.of_N data] 20)
  end.

#[local] Instance toy_cv2 : Cv2 := {|
  cv2_imdecode := toy_imdecode;
  cv2_imencode_jpg := fun image => Some (flatten_row image);
  cv2_convertScaleAbs := fun image _ _ => Some image;
  cv2_cvtColor := fun image _ => Some image;
  cv2_split := fun image => Some [image; image; image];
  cv2_merge := fun planes => head planes;
  cv2_add := fun image _ => Some image;
  np_clip := fun image _ _ => image;
  cv2_copyMakeBorder := fun image _ _ _ _ _ _ => Some image;
  cv2_GaussianBlur := fun image _ _ => Some image;
  cv2_addWeighted := fun image _ _ _ _ => Some image;
  cv2_filter2D := fun image _ _ => Some image;
  cv2_bitwise_not := fun image => Some image
|}.

(** Files hold one byte per code point. *)
#[local] Instance toy_codecs : Codecs := {|
  decode := fun _ data => Some data;
  encode_utf8 := fun s => Some s;
  docx_paragraphs := fun data => Some [data]
|}.

(** Every provider answers every call with one choice. *)
#[local] Instance all_up : AiServices := {|
  openrouter_create := fun _ _ => Ok [Some (lit "rewritten")];
  siliconflow_post := fun _ _ =>
    Ok {| status_ok := true;
          body_json := Some (JObj [(lit "choices",
                         JArr [JObj [(lit "message",
                           JObj [(lit "content", JStr (lit "backup"))])]])]) |};
  moonshot_create := fun _ _ => Ok [Some (lit "A title!")]
|}.

(** Every provider is down. *)
#[local] Instance all_down : AiServices := {|
  openrouter_create := fun _ _ => Raise (ClientError (lit "down"));
  siliconflow_post := fun _ _ => Raise (ClientError (lit "down"));
  moonshot_create := fun _ _ => Raise (ClientError (lit "down"))
|}.

Definition cfg : config := {|
  output_folder_path := lit "out";
  processed_folder_path := lit "done";
  rewrite_prompt := lit "rewrite this";
  title_prompt := lit "title this"
|}.

Definition doc_txt : str := [27491; 25991] ++ lit ".txt".

(** An input folder [in1] with one image and one document. *)
Definition fs0 : fs :=
  list_to_map
    [([lit "in1"], Dir);
     ([lit "in1"; lit "a.JPG"], File [1; 2; 3]);
     ([lit "in1"; doc_txt], File (lit "hello"))].

Definition w0 : world := {| w_fs := fs0; w_calls := 0; w_log := [] |}.

(** The same, but [done] is a regular file, so nothing can be archived. *)
Definition fs_blocked : fs := <[[lit "done"] := File []]> fs0.
Definition w_blocked : world := {| w_fs := fs_blocked; w_calls := 0; w_log := [] |}.

(** An empty folder [in2]. *)
Definition fs_empty_folder : fs := list_to_map [([lit "in2"], Dir)].
Definition w_empty_folder : world :=
  {| w_fs := fs_empty_folder; w_calls := 0; w_log := [] |}.
End Scenario.

(** * Properties of the image functions *)

Section image_functions.
Context `{Cv2}.

Lemma crop_height_le (height : Z) :
  (0 ≤ height → 0 ≤ height * 19 / 20 ≤ height)%Z.
Proof.
  intros Hh. split.
  - apply Z.div_pos; lia.
  - apply Z.div_le_upper_bound; lia.
Qed.

Lemma crop_bottom_length (image : ndarray) :
  length (ImageProcessor.crop_bottom image)
  = Z.to_nat (Z.of_nat (length image) * 19 / 20).
Proof.
  unfold ImageProcessor.crop_bottom. rewrite length_take.
  pose proof (crop_height_le (Z.of_nat (length image))). lia.
Qed.

Lemma crop_bottom_prefix (image : ndarray) :
  ImageProcessor.crop_bottom image `prefix_of` image.
Proof. unfold ImageProcessor.crop_bottom. apply prefix_take. Qed.

(** C10.  The image functions of the two files agree: [apply_filter] on
    the filter types natural and warm, [crop_bottom] on every image
    (both keep the first floor(19h/20) rows, whole), and [add_border] on
    every explicit border size and colour. *)
Theorem image_functions_agree (image : ndarray) :
  ImageProcessor.apply_filter image (lit "natural")
    = ImageScript.apply_filter image (lit "natural")
  ∧ ImageProcessor.apply_filter image (lit "warm")
    = ImageScript.apply_filter image (lit "warm")
  ∧ ImageProcessor.crop_bottom image = ImageScript.crop_bottom image
  ∧ ImageScript.crop_bottom image `prefix_of` image
  ∧ length (ImageScript.crop_bottom image)
    = Z.to_nat (Z.of_nat (length image) * 19 / 20)
  ∧ ∀ border_size color,
      ImageProcessor.add_border image border_size color
      = ImageScript.add_border image border_size color.
Proof.
  repeat split.
  - apply crop_bottom_prefix.
  - apply crop_bottom_length.
  - intros border_size color.
    unfold ImageProcessor.add_border, ImageScript.add_border.
    by destruct (cv2_copyMakeBorder _ _ _ _ _ _ _).
Qed.

(** The two files do differ outside the claim: on their defaults and on
    the other filter types. *)
Lemma default_border_sizes_differ :
  ImageProcessor.default_border_size ≠ ImageScript.default_border_size.
Proof. discriminate. Qed.

(** On the natural filter, [apply_filter] is its first branch. *)
Definition natural_branch (image : ndarray) : result ndarray :=
  (image <- cv (cv2_convertScaleAbs image (Flit 11 (-1)) 0) ;;
   hsv <- cv (cv2_cvtColor image COLOR_BGR2HSV) ;;
   planes <- cv (cv2_split hsv) ;;
   hsv3 <- unpack3 planes ;;
   let '(h, s, v) := hsv3 in
   s <- cv (cv2_add s 10) ;;
   let s := np_clip s 0 255 in
   hsv <- cv (cv2_merge [h; s; v]) ;;
   cv (cv2_cvtColor hsv COLOR_HSV2BGR))%R.


Ltac step_cv :=
  match goal with
  | |- context [cv ?o] => destruct o; simpl; try discriminate
  end.

Lemma natural_branch_never_unsupported (image : ndarray) (msg : str) :
  natural_branch image ≠ Raise (UnsupportedFilter msg).
Proof.
  unfold natural_branch.
  repeat (step_cv; try (unfold unpack3;
    repeat (match goal with
            | |- context [match ?l with [] => _ | _ :: _ => _ end] => destruct l; simpl; try discriminate
            end))).
Qed.
End image_functions.

(** * Properties of [process_images] *)

Definition set_log (w : world) (l : list event) : world :=
  {| w_fs := w_fs w; w_calls := w_calls w; w_log := l |}.

Definition add_log (w : world) (t : list event) : world :=
  set_log w (w_log w ++ t).

Lemma log_run (e : event) (w : world) : log e w = (Ok tt, add_log w [e]).
Proof. reflexivity. Qed.


(** Every call of [apply_filter] in a trace names the natural filter. *)
Definition natural_only (e : event) : Prop :=
  match e with
  | ev_apply_filter _ filter_type => filter_type = lit "natural"
  | _ => True
  end.

(** Events that belong to the image loop. *)
Definition image_event (e : event) : bool :=
  match e with
  | ev_read_image _ _ | ev_apply_filter _ _ | ev_crop_bottom _
  | ev_add_border _ _ _ | ev_write_image _ _ _ => true
  | _ => false
  end.

Section process_images.
Context `{Cv2}.

Lemma read_image_run (image_path : str) (w : world) :
  ∃ image,
    BatchProcessor.read_image_chinese_path image_path w
    = (Ok image, add_log w [ev_read_image image_path image]).
Proof.
  unfold BatchProcessor.read_image_chinese_path, bindM, get_fs. simpl.
  eexists. reflexivity.
Qed.

Lemma write_image_run (image_path : str) (image : ndarray) (w : world) :
  ∃ written f',
    BatchProcessor.write_image_chinese_path image_path image w
    = (Ok written,
       {| w_fs := f'; w_calls := w_calls w;
          w_log := w_log w ++ [ev_write_image image_path image written] |}).
Proof.
  unfold BatchProcessor.write_image_chinese_path, bindM.
  destruct (cv2_imencode_jpg image) as [buffer|]; simpl.
  - unfold try_except, bindM, lift_fs.
    destruct (write_file (w_fs w) (Path image_path) buffer); simpl;
      by eexists _, _.
  - by eexists _, _.
Qed.

(** What the loop does to the world, whatever its outcome: it only adds
    image events, and every filter call names the natural filter. *)
Lemma process_images_loop_log image_paths output_dir count w r w' :
  BatchProcessor.process_images_loop image_paths output_dir count w = (r, w') →
  ∃ t,
    w_log w' = w_log w ++ t
    ∧ Forall natural_only t
    ∧ Forall (fun e => image_event e = true) t
    ∧ w_calls w' = w_calls w
    ∧ ∀ msg, r ≠ Raise (UnsupportedFilter msg).
Proof.
  revert count w.
  induction image_paths as [|image_path rest IH]; intros count w Hrun;
    simpl in Hrun.
  - injection Hrun as <- <-. exists []. by rewrite app_nil_r.
  - unfold bindM at 1 in Hrun.
    destruct (read_image_run image_path w) as [image Hread].
    rewrite Hread in Hrun. destruct image as [image|].
    2:{ apply IH in Hrun as (t & Ht & Hnat & Hev & Hc & Hr).
        exists (ev_read_image image_path None :: t).
        rewrite Ht, Hc. simpl. rewrite <- app_assoc. by repeat constructor. }
    unfold bindM at 1 in Hrun. rewrite log_run in Hrun.
    unfold bindM at 1, liftR at 1 in Hrun.
    destruct (ImageProcessor.apply_filter image (lit "natural"))
      as [filtered|e] eqn:Hfilter.
    2:{ injection Hrun as <- <-. eexists [_; _]. simpl.
        rewrite <- app_assoc. repeat split; try by repeat constructor.
        intros msg [= ->].
        by apply (natural_branch_never_unsupported image msg). }
    unfold bindM at 1 in Hrun. rewrite log_run in Hrun.
    unfold bindM at 1 in Hrun. rewrite log_run in Hrun.
    unfold bindM at 1, liftR at 1 in Hrun.
    destruct (ImageProcessor.add_border _ _ _) as [bordered|e] eqn:Hborder.
    2:{ injection Hrun as <- <-. eexists [_; _; _; _]. simpl.
        rewrite <- !app_assoc. repeat split; try by repeat constructor.
        intros msg [= ->]. unfold ImageProcessor.add_border in Hborder.
        by destruct (cv2_copyMakeBorder _ _ _ _ _ _ _). }
    unfold bindM at 1 in Hrun.
    match type of Hrun with
    | context [BatchProcessor.write_image_chinese_path ?p ?i ?w0] =>
        destruct (write_image_run p i w0) as (written & f' & Hwrite)
    end.
    rewrite Hwrite in Hrun.
    assert (∃ c, BatchProcessor.process_images_loop rest output_dir c
                   {| w_fs := f'; w_calls := w_calls w;
                      w_log := ((((w_log w ++ [ev_read_image image_path (Some image)])
                        ++ [ev_apply_filter image (lit "natural")])
                        ++ [ev_crop_bottom filtered])
                        ++ [ev_add_border (ImageProcessor.crop_bottom filtered) 20
                              ImageProcessor.default_color])
                        ++ [ev_write_image
                              (path_str (path_join output_dir (path_name (Path image_path))))
                              bordered written] |} = (r, w')) as [c Hrest].
    { destruct written; eauto. }
    apply IH in Hrest as (t & Ht & Hnat & Hev & Hc & Hr). simpl in Ht, Hc.
    eexists ([_; _; _; _; _] ++ t).
    rewrite Ht, Hc; simpl; rewrite <- !app_assoc; simpl.
    by repeat constructor.
Qed.





End process_images.

(** * Properties of the service fallback *)

Section fallback.
Context `{AiServices}.

(** What one provider's [try] block evaluates to when its request is the
    service call number [call]: the message content, or the exception
    that ends the block. *)
Definition provider_outcome (p : provider) (call : nat) (text prompt : str)
  : result json :=
  match p with
  | OpenRouter =>
      (completion <-
         openrouter_create call (ai_services.openrouter_request text prompt) ;;
       ai_services.first_choice_content completion)%R
  | SiliconFlow =>
      (response <-
         siliconflow_post call (ai_services.siliconflow_request text prompt) ;;
       ai_services.response_content response)%R
  | Moonshot =>
      (completion <-
         moonshot_create call (ai_services.moonshot_request text prompt) ;;
       ai_services.first_choice_content completion)%R
  end.

(** The requests of [rewrite_content], in the order of the tiers. *)
Definition tier_requests (text prompt : str) : list event :=
  [ev_request OpenRouter (ai_services.openrouter_request text prompt);
   ev_request SiliconFlow (ai_services.siliconflow_request text prompt);
   ev_request Moonshot (ai_services.moonshot_request text prompt)].

(** C1.  [rewrite_content] asks OpenRouter first, SiliconFlow only after
    OpenRouter failed and Moonshot only after both failed; it returns the
    content of the first provider that succeeds, and it raises exactly
    when all three fail. *)
Theorem rewrite_content_fallback (text prompt : str) (w : world) :
  let first := provider_outcome OpenRouter (w_calls w) text prompt in
  let second := provider_outcome SiliconFlow (S (w_calls w)) text prompt in
  let third := provider_outcome Moonshot (S (S (w_calls w))) text prompt in
  let r := run (ai_services.rewrite_content text prompt) w in
  let w' := exec (ai_services.rewrite_content text prompt) w in
  let asked (tiers : nat) :=
    w_log w' = w_log w ++ ev_rewrite_content text prompt
                         :: take tiers (tier_requests text prompt)
    ∧ w_calls w' = (w_calls w + tiers)%nat
    ∧ w_fs w' = w_fs w in
  match first, second, third with
  | Ok content, _, _ => r = Ok content ∧ asked 1%nat
  | Raise _, Ok content, _ => r = Ok content ∧ asked 2%nat
  | Raise _, Raise _, Ok content => r = Ok content ∧ asked 3%nat
  | Raise e, Raise e2, Raise e3 =>
      r = Raise (AllModelsFailed e e2 e3) ∧ asked 3%nat
  end
  ∧ ((∃ e, r = Raise e)
     ↔ is_ok first = false ∧ is_ok second = false ∧ is_ok third = false).
Proof.
  unfold run, exec, ai_services.rewrite_content, provider_outcome, tier_requests.
  unfold bindM, try_except, request, liftR, raise. rewrite log_run. simpl.
  destruct (openrouter_create (w_calls w) _) as [c1|e1]; simpl;
    try destruct (ai_services.first_choice_content c1) as [v1|e1']; simpl;
    destruct (siliconflow_post (S (w_calls w)) _) as [r2|e2]; simpl;
    try destruct (ai_services.response_content r2) as [v2|e2']; simpl;
    destruct (moonshot_create (S (S (w_calls w))) _) as [c3|e3]; simpl;
    try destruct (ai_services.first_choice_content c3) as [v3|e3']; simpl;
    rewrite <- ?app_assoc; simpl.
  all: split; [repeat split; try done; lia|].
  all: split; [intros [? ?]; done || (repeat split; done) | intros (? & ? & ?); done || eauto].
Qed.
End fallback.

(** * Properties of the file system *)

Lemma str_eqb_true (a b : str) : str_eqb a b = true ↔ a = b.
Proof. unfold str_eqb. apply bool_decide_eq_true. Qed.

Lemma str_eqb_refl (a : str) : str_eqb a a = true.
Proof. by apply str_eqb_true. Qed.

Lemma filter_nil_iff {A} (P : A → bool) (l : list A) :
  List.filter P l = [] ↔ ∀ x, In x l → P x = false.
Proof.
  induction l as [|a l IH]; simpl.
  - naive_solver.
  - destruct (P a) eqn:Ha.
    + split; [discriminate|]. intros Hall. specialize (Hall a (or_introl eq_refl)).
      congruence.
    + rewrite IH. naive_solver.
Qed.

Lemma child_name_spec (q k : path) (n : str) :
  child_name q k = Some n ↔ k = q ++ [n].
Proof.
  revert k. induction q as [|c q IH]; intros k; simpl.
  - destruct k as [|d [|d' k]]; naive_solver.
  - destruct k as [|d k]; [naive_solver|].
    destruct (str_eqb c d) eqn:Hcd.
    + apply str_eqb_true in Hcd as ->. rewrite IH. naive_solver.
    + split; [discriminate|]. intros [= -> ->]. by rewrite str_eqb_refl in Hcd.
Qed.

(** [listdir] lists exactly the names of the children. *)
Lemma listdir_spec (f : fs) (p : path) (names : list str) :
  listdir f p = Ok names →
  ∃ q, resolve f p = Ok q ∧ node_at f q = Some Dir
       ∧ ∀ n, In n names ↔ is_Some (f !! (q ++ [n])).
Proof.
  unfold listdir. destruct (resolve f p) as [q|e]; simpl; [|discriminate].
  destruct (node_at f q) as [[data|]|] eqn:Hq; try discriminate.
  intros [= <-]. exists q. split; [done|]. split; [done|]. intros n. split.
  - intros Hin. apply list_elem_of_In, list_elem_of_omap in Hin as ([k x] & Hkx & Hn).
    simpl in Hn. apply child_name_spec in Hn as ->.
    apply elem_of_map_to_list in Hkx. eauto.
  - intros [x Hx]. apply list_elem_of_In, list_elem_of_omap.
    exists (q ++ [n], x). split; [by apply elem_of_map_to_list|].
    simpl. by apply child_name_spec.
Qed.

Lemma listdir_of_dir (f : fs) (p : path) :
  path_is_dir f p = true → ∃ names, listdir f p = Ok names.
Proof.
  unfold path_is_dir, stat, listdir.
  destruct (resolve f p) as [q|e]; simpl; [|discriminate].
  destruct (node_at f q) as [[data|]|]; simpl; try discriminate. eauto.
Qed.

Lemma path_name_snoc (p : path) (name : str) : path_name (p ++ [name]) = name.
Proof. unfold path_name. apply last_last. Qed.

Lemma path_suffix_snoc (p : path) (name : str) :
  path_suffix (p ++ [name]) = path_suffix [name].
Proof. unfold path_suffix. by rewrite path_name_snoc. Qed.

(** * Properties of [validate_input_folder] *)

(** The folder has an entry whose lower-cased extension is an image
    extension. *)
Definition has_image (f : fs) (folder : path) : Prop :=
  ∃ q name,
    resolve f folder = Ok q
    ∧ is_Some (f !! (q ++ [name]))
    ∧ BatchProcessor.in_set (py_lower (path_suffix [name]))
        BatchProcessor.image_extensions = true.

(** How many of the three document names exist in the folder. *)
Definition document_count (f : fs) (folder : path) : nat :=
  length (List.filter (fun pattern => path_exists f (path_join folder pattern))
            BatchProcessor.doc_patterns).

Lemma validate_existing_spec (f : fs) (folder : path) :
  path_is_dir f folder = true →
  ∃ v, BatchProcessor.validate_existing f folder = Ok v
    ∧ (valid v = true ↔ errors v = [])
    ∧ (In BatchProcessor.err_no_image (errors v) ↔ ¬ has_image f folder)
    ∧ (In BatchProcessor.err_no_document (errors v) ↔ document_count f folder = 0%nat)
    ∧ (In BatchProcessor.err_many_documents (errors v)
       ↔ (1 < document_count f folder)%nat)
    ∧ (errors v = [] ↔ has_image f folder ∧ document_count f folder = 1%nat).
Proof.
  intros Hdir. destruct (listdir_of_dir f folder Hdir) as [names Hnames].
  unfold BatchProcessor.validate_existing. rewrite Hnames. cbn [bindR].
  destruct (listdir_spec _ _ _ Hnames) as (q & Hq & _ & Hin).
  set (is_image := fun name : str =>
         BatchProcessor.in_set (py_lower (path_suffix (folder ++ [name])))
           BatchProcessor.image_extensions).
  assert (Himg : List.filter is_image names = [] ↔ ¬ has_image f folder).
  { rewrite filter_nil_iff. unfold has_image, is_image. split.
    - intros Hall (q' & name & Hq' & Hsome & Hext).
      rewrite Hq in Hq'. injection Hq' as <-.
      apply Hin, Hall in Hsome. rewrite path_suffix_snoc in Hsome. congruence.
    - intros Hno name Hname. rewrite path_suffix_snoc.
      destruct (BatchProcessor.in_set _ _) eqn:Hext; [|done].
      destruct Hno. exists q, name. by rewrite <- Hin. }
  assert (Hhas : ∀ name, In name (List.filter is_image names) → has_image f folder).
  { intros name [Hname Himage]%filter_In. exists q, name.
    unfold is_image in Himage. rewrite path_suffix_snoc in Himage.
    by rewrite <- Hin. }
  unfold document_count.
  set (docs := List.filter _ BatchProcessor.doc_patterns).
  destruct (List.filter is_image names) as [|name1 others] eqn:Himages;
    destruct docs as [|doc1 [|doc2 more]] eqn:Hdocs; cbn [List.map].
  all: eexists; split; [reflexivity|]; cbn [valid errors app length].
  1-3: pose proof (proj1 Himg eq_refl) as Hno.
  4-6: pose proof (Hhas name1 (or_introl eq_refl)) as Hyes.
  all: unfold BatchProcessor.err_no_image, BatchProcessor.err_no_document,
         BatchProcessor.err_many_documents; simpl In.
  all: repeat split; intros; try done; try lia; try (by intuition discriminate);
         try (intuition lia).
Qed.

(** C6.  For a path that names a folder or nothing, [validate_input_folder]
    answers valid exactly when the folder exists, has an entry with an
    image extension (compared in lower case) and has exactly one of the
    three documents; otherwise the errors are not empty and name what is
    wrong: the missing folder alone, or else each of no image, no
    document, several documents that applies. *)
Theorem validate_input_folder_iff (folder_path : str) (w : world) :
  let f := w_fs w in
  let folder := Path folder_path in
  (path_exists f folder = true → path_is_dir f folder = true) →
  ∃ v,
    BatchProcessor.validate_input_folder folder_path w
    = (Ok v, add_log w [ev_validate_input_folder folder_path])
    ∧ (valid v = true
       ↔ path_exists f folder = true ∧ has_image f folder
         ∧ document_count f folder = 1%nat)
    ∧ (valid v = false → errors v ≠ [])
    ∧ (path_exists f folder = false
       → errors v = [BatchProcessor.err_folder_missing])
    ∧ (path_exists f folder = true
       → (In BatchProcessor.err_no_image (errors v) ↔ ¬ has_image f folder)
         ∧ (In BatchProcessor.err_no_document (errors v)
            ↔ document_count f folder = 0%nat)
         ∧ (In BatchProcessor.err_many_documents (errors v)
            ↔ (1 < document_count f folder)%nat)).
Proof.
  intros f folder Hfolder.
  unfold BatchProcessor.validate_input_folder, bindM. rewrite log_run.
  unfold get_fs. cbn [w_fs add_log set_log]. fold f folder.
  destruct (path_exists f folder) eqn:Hexists; cbn [negb].
  - destruct (validate_existing_spec f folder (Hfolder eq_refl))
      as (v & Hv & Hvalid & Himage & Hnone & Hmany & Hok).
    unfold liftR. rewrite Hv. exists v. split; [done|].
    split; [rewrite Hvalid, Hok; tauto|].
    split; [intros Hv0 He; apply Hvalid in He; congruence|].
    split; [discriminate|]. auto.
  - eexists. split; [reflexivity|]. cbn [valid errors].
    repeat split; try done. by intros (? & _).
Qed.

(** The hypothesis of C6 holds of the scenario. *)
Lemma validate_input_folder_iff_witness :
  ∃ v,
    BatchProcessor.validate_input_folder (lit "in1") Scenario.w0
    = (Ok v, add_log Scenario.w0 [ev_validate_input_folder (lit "in1")])
    ∧ (valid v = true
       ↔ path_exists Scenario.fs0 (Path (lit "in1")) = true
         ∧ has_image Scenario.fs0 (Path (lit "in1"))
         ∧ document_count Scenario.fs0 (Path (lit "in1")) = 1%nat).
Proof.
  destruct (validate_input_folder_iff (lit "in1") Scenario.w0)
    as (v & Hrun & Hvalid & _).
  - intros _. vm_compute. reflexivity.
  - exists v. split; [exact Hrun | exact Hvalid].
Defined.

(** Outside the hypothesis: a path that names a regular file is not
    answered at all, [iterdir] raises. *)
Example validate_regular_file :
  run (BatchProcessor.validate_input_folder (lit "in1/a.JPG")) Scenario.w0
  = Raise NotADirectoryError.
Proof. vm_compute. reflexivity. Qed.

Example validate_scenario_folder :
  run (BatchProcessor.validate_input_folder (lit "in1")) Scenario.w0
  = Ok {| valid := true;
          images := [lit "in1/a.JPG"];
          document := Some (lit "in1/" ++ Scenario.doc_txt);
          errors := [] |}.
Proof. vm_compute. reflexivity. Qed.

Example validate_empty_folder :
  run (BatchProcessor.validate_input_folder (lit "in2")) Scenario.w_empty_folder
  = Ok {| valid := false; images := []; document := None;
          errors := [BatchProcessor.err_no_document; BatchProcessor.err_no_image] |}.
Proof. vm_compute. reflexivity. Qed.

(** * Properties of paths *)

(** A well-formed part: not empty, not [.], without a slash. *)
Definition wf_part (c : str) : Prop := c ≠ [] ∧ c ≠ dot ∧ ¬ In slash c.

Lemma split_on_no_sep (sep : N) (s : str) :
  ¬ In sep s → split_on sep s = [s].
Proof.
  induction s as [|c s IH]; simpl; [done|]. intros Hno.
  destruct (N.eqb_spec c sep) as [->|Hne]; [naive_solver|].
  rewrite IH; naive_solver.
Qed.

Lemma split_on_app (sep : N) (a b : str) :
  ¬ In sep a → split_on sep (a ++ sep :: b) = a :: split_on sep b.
Proof.
  induction a as [|c a IH]; simpl; intros Hno.
  - by rewrite N.eqb_refl.
  - destruct (N.eqb_spec c sep) as [->|Hne]; [naive_solver|].
    rewrite IH; naive_solver.
Qed.

Lemma split_on_parts (sep : N) (s : str) :
  Forall (fun seg => ¬ In sep seg) (split_on sep s).
Proof.
  induction s as [|c s IH]; simpl.
  - repeat constructor. naive_solver.
  - destruct (N.eqb_spec c sep) as [->|Hne].
    + constructor; [naive_solver | done].
    + destruct (split_on sep s) as [|seg segs].
      * repeat constructor. simpl. naive_solver.
      * inversion IH; subst. constructor; [|done]. simpl. naive_solver.
Qed.

Lemma keep_part_spec (c : str) :
  nonempty c && negb (str_eqb c dot) = true ↔ c ≠ [] ∧ c ≠ dot.
Proof.
  rewrite andb_true_iff, negb_true_iff. unfold str_eqb.
  rewrite bool_decide_eq_false. destruct c; simpl; naive_solver.
Qed.

(** Every path that [Path] builds is well formed. *)
Lemma Path_wf (s : str) : Forall wf_part (Path s).
Proof.
  unfold Path. apply Forall_forall. intros c Hc.
  apply list_elem_of_In, filter_In in Hc as [Hin Hkeep].
  apply keep_part_spec in Hkeep as [? ?].
  pose proof (split_on_parts slash s) as Hparts.
  rewrite Forall_forall in Hparts. apply list_elem_of_In, Hparts in Hin.
  done.
Qed.

Lemma Path_single (c : str) : wf_part c → Path c = [c].
Proof.
  intros (Hne & Hdot & Hslash). unfold Path.
  rewrite split_on_no_sep by done. simpl.
  by rewrite (proj2 (keep_part_spec c)).
Qed.

(** Parsing the printed form of a well-formed path, with text appended to
    its last part. *)
Lemma Path_join_app (p : path) (c tail : str) :
  Forall wf_part p → wf_part (c ++ tail) → ¬ In slash c →
  Path (py_join [slash] (p ++ [c]) ++ tail) = p ++ [c ++ tail].
Proof.
  intros Hp Hc Hslash. induction p as [|d p IH].
  - simpl. by apply Path_single.
  - inversion Hp as [|? ? Hd Hp']; subst.
    assert (Hjoin : py_join [slash] ((d :: p) ++ [c])
                    = d ++ slash :: py_join [slash] (p ++ [c])).
    { simpl. destruct (p ++ [c]) eqn:Hpc; [by destruct p|done]. }
    rewrite Hjoin, <- app_assoc. simpl.
    unfold Path. rewrite split_on_app by apply Hd. simpl.
    destruct Hd as (Hne & Hdot & _).
    rewrite (proj2 (keep_part_spec d)) by done.
    f_equal. by apply IH.
Qed.

(** ** Decimal numerals *)

Definition is_digit (c : N) : Prop := 48 ≤ c ≤ 57.

Lemma lit_cons (a : ascii) (s : string) : lit (String a s) = N_of_ascii a :: lit s.
Proof. reflexivity. Qed.

Lemma lit_inj (s t : string) : lit s = lit t → s = t.
Proof.
  revert t. induction s as [|a s IH]; intros [|b t]; try done.
  rewrite !lit_cons. intros [= Hab Hst].
  f_equal; [|by apply IH].
  rewrite <- (ascii_N_embedding a), <- (ascii_N_embedding b). by rewrite Hab.
Qed.

Lemma pretty_N_char_digit (x : N) : is_digit (N_of_ascii (pretty_N_char x)).
Proof.
  unfold pretty_N_char, is_digit.
  repeat (match goal with |- context [match ?y with _ => _ end] => destruct y end;
          try (vm_compute; split; discriminate)).
Qed.

Lemma pretty_N_go_digits (x : N) (s : string) :
  Forall is_digit (lit s) → Forall is_digit (lit (pretty_N_go x s)).
Proof.
  revert s. induction (N.lt_wf_0 x) as [x _ IH]; intros s Hs.
  assert (x = 0 ∨ 0 < x) as [->|Hpos] by lia.
  - by rewrite pretty_N_go_0.
  - rewrite pretty_N_go_step by done. apply IH.
    { by apply N.div_lt. }
    rewrite lit_cons. constructor; [apply pretty_N_char_digit | done].
Qed.

Lemma str_of_int_digits (n : N) : Forall is_digit (str_of_int n).
Proof.
  unfold str_of_int, pretty, pretty_N. case_decide.
  - repeat constructor; vm_compute; discriminate.
  - apply pretty_N_go_digits. constructor.
Qed.

Lemma str_of_int_inj (j k : N) : str_of_int j = str_of_int k → j = k.
Proof. intros Heq%lit_inj. by apply (inj pretty). Qed.

Lemma digits_without (c : N) (s : str) :
  Forall is_digit s → ¬ is_digit c → ¬ In c s.
Proof.
  intros Hs Hc Hin. rewrite Forall_forall in Hs.
  by apply list_elem_of_In, Hs in Hin.
Qed.

(** ** The numbered candidates *)

(** The text that [with_counter] appends. *)
Definition counter_suffix (k : N) : str := lit "_" ++ str_of_int k.

(** The part that receives the suffix: the name, or [.] for the empty path. *)
Definition last_part (p : path) : str :=
  match p with
  | [] => dot
  | _ => List.last p []
  end.

Lemma counter_suffix_without (c : N) (k : N) :
  c ≠ 95 → ¬ is_digit c → ¬ In c (counter_suffix k).
Proof.
  intros Hc Hd. unfold counter_suffix. simpl. intros [Heq|Hin]; [done|].
  by apply (digits_without c (str_of_int k) (str_of_int_digits k)).
Qed.

Lemma counter_suffix_inj (j k : N) : counter_suffix j = counter_suffix k → j = k.
Proof. unfold counter_suffix. intros [= Heq]. by apply str_of_int_inj. Qed.

Lemma suffixed_wf (c : str) (k : N) :
  ¬ In slash c → wf_part (c ++ counter_suffix k).
Proof.
  intros Hslash. assert (Hin : In 95 (c ++ counter_suffix k)).
  { apply in_app_iff. right. unfold counter_suffix. simpl. by left. }
  repeat split.
  - intros Heq. by rewrite Heq in Hin.
  - intros Heq. rewrite Heq in Hin. simpl in Hin. naive_solver.
  - rewrite in_app_iff. intros [?|Hsuffix]; [done|]. revert Hsuffix.
    apply counter_suffix_without; [done|]. unfold is_digit, slash. lia.
Qed.

Lemma suffixed_not_dotdot (c : str) (k : N) : c ++ counter_suffix k ≠ dotdot.
Proof.
  intros Heq. assert (Hin : In 95 (c ++ counter_suffix k)).
  { apply in_app_iff. right. unfold counter_suffix. simpl. by left. }
  rewrite Heq in Hin. simpl in Hin. naive_solver.
Qed.

(** [with_counter] appends the suffix to the last part and changes nothing
    else. *)
Lemma with_counter_spec (p : path) (k : N) :
  Forall wf_part p →
  with_counter p k = removelast p ++ [last_part p ++ counter_suffix k].
Proof.
  intros Hp. unfold with_counter. fold (counter_suffix k).
  destruct p as [|d p'] eqn:Hpeq.
  - simpl path_str. simpl removelast. simpl last_part.
    apply Path_single, suffixed_wf. simpl. unfold slash. naive_solver.
  - rewrite <- Hpeq in *. assert (Hne : p ≠ []) by (by rewrite Hpeq).
    assert (Hstr : path_str p = py_join [slash] p) by (by rewrite Hpeq).
    assert (Hlast : last_part p = List.last p []) by (by rewrite Hpeq).
    rewrite Hstr, Hlast.
    rewrite (app_removelast_last [] Hne) at 1.
    rewrite (app_removelast_last [] Hne) in Hp.
    apply Forall_app in Hp as [Hinit Hl].
    inversion Hl as [|? ? (? & ? & Hslash) _]; subst.
    apply Path_join_app; [done | by apply suffixed_wf | done].
Qed.

Lemma with_counter_inj (p : path) (j k : N) :
  Forall wf_part p → with_counter p j = with_counter p k → j = k.
Proof.
  intros Hp. rewrite !with_counter_spec by done.
  intros [_ Heq]%app_inj_tail. apply app_inv_head in Heq.
  by apply counter_suffix_inj.
Qed.

(** * Properties of path resolution *)

Lemma node_at_cons (f : fs) (q : path) : q ≠ [] → node_at f q = f !! q.
Proof. by destruct q. Qed.

Lemma node_at_mono (f f' : fs) (q : path) (n : node) :
  f ⊆ f' → node_at f q = Some n → node_at f' q = Some n.
Proof.
  intros Hsub. destruct q; simpl; [done|].
  intros Hq. by eapply lookup_weaken.
Qed.

Lemma walk_mono (f f' : fs) (cur p q : path) :
  f ⊆ f' → walk f cur p = Ok q → walk f' cur p = Ok q.
Proof.
  intros Hsub. revert cur. induction p as [|c p IH]; intros cur; simpl; [done|].
  destruct (node_at f cur) as [[data|]|] eqn:Hcur; try discriminate.
  rewrite (node_at_mono f f' cur Dir Hsub Hcur). apply IH.
Qed.

Lemma walk_app (f : fs) (cur p1 p2 : path) :
  walk f cur (p1 ++ p2) = (q <- walk f cur p1 ;; walk f q p2)%R.
Proof.
  revert cur. induction p1 as [|c p1 IH]; intros cur; simpl; [done|].
  by destruct (node_at f cur) as [[data|]|].
Qed.

Lemma path_exists_spec (f : fs) (p : path) :
  path_exists f p = true ↔ ∃ q, resolve f p = Ok q ∧ is_Some (node_at f q).
Proof.
  unfold path_exists, stat. destruct (resolve f p) as [q|e]; simpl.
  - destruct (node_at f q) as [n|] eqn:Hn; simpl; split; try done.
    + intros _. exists q. rewrite Hn. eauto.
    + intros (? & [= <-] & [? ?]). congruence.
  - split; [done|]. by intros (? & ? & _).
Qed.

Lemma path_is_dir_spec (f : fs) (p : path) :
  path_is_dir f p = true ↔ ∃ q, resolve f p = Ok q ∧ node_at f q = Some Dir.
Proof.
  unfold path_is_dir, stat. destruct (resolve f p) as [q|e]; simpl.
  - destruct (node_at f q) as [[data|]|] eqn:Hn; simpl; split; try done.
    + intros (? & [= <-] & ?). congruence.
    + intros _. eauto.
    + intros (? & [= <-] & ?). congruence.
  - split; [done|]. by intros (? & ? & _).
Qed.

Lemma path_is_dir_exists (f : fs) (p : path) :
  path_is_dir f p = true → path_exists f p = true.
Proof.
  rewrite path_is_dir_spec, path_exists_spec. intros (q & Hq & Hn). eauto.
Qed.

Lemma path_exists_mono (f f' : fs) (p : path) :
  f ⊆ f' → path_exists f p = true → path_exists f' p = true.
Proof.
  intros Hsub. rewrite !path_exists_spec. intros (q & Hq & [n Hn]).
  exists q. split; [by eapply walk_mono|]. exists n. by eapply node_at_mono.
Qed.


Lemma enter_plain (cur : path) (c : str) : c ≠ dotdot → enter cur c = cur ++ [c].
Proof.
  intros Hc. unfold enter. destruct (str_eqb c dotdot) eqn:Heq; [|done].
  by apply str_eqb_true in Heq.
Qed.


Lemma child_exists (f : fs) (p : path) (c : str) :
  c ≠ dotdot → path_exists f (p ++ [c]) = true →
  ∃ q, resolve f p = Ok q ∧ is_Some (f !! (q ++ [c])).
Proof.
  intros Hc (q' & Hq' & Hn)%path_exists_spec.
  unfold resolve in *. rewrite walk_app in Hq'.
  destruct (walk f [] p) as [q|e]; simpl in Hq'; [|discriminate].
  destruct (node_at f q) as [[data|]|]; try discriminate.
  rewrite enter_plain in Hq' by done. injection Hq' as <-.
  exists q. split; [done|]. rewrite node_at_cons in Hn; [done|]. by destruct q.
Qed.

(** ** Creating directories *)

Lemma os_mkdir_ok (f f' : fs) (p : path) :
  os_mkdir f p = Ok f' →
  ∃ q, resolve f p = Ok q ∧ q ≠ [] ∧ f !! q = None ∧ f' = <[q := Dir]> f.
Proof.
  unfold os_mkdir. destruct (resolve f p) as [q|e]; simpl; [|discriminate].
  destruct (node_at f q) eqn:Hq; [discriminate|]. intros [= <-].
  exists q. destruct q; [discriminate|]. done.
Qed.

Lemma os_mkdir_grows (f f' : fs) (p : path) :
  os_mkdir f p = Ok f' → f ⊆ f' ∧ path_is_dir f' p = true.
Proof.
  intros (q & Hq & Hne & Hnone & ->)%os_mkdir_ok.
  assert (Hsub : f ⊆ <[q := Dir]> f) by (by apply insert_subseteq).
  split; [done|]. apply path_is_dir_spec. exists q.
  split; [by eapply walk_mono|]. rewrite node_at_cons by done.
  apply lookup_insert_eq.
Qed.

Lemma mkdir_exist_ok_grows (f f' : fs) (p : path) :
  mkdir_exist_ok f p = Ok f' → f ⊆ f' ∧ path_is_dir f' p = true.
Proof.
  unfold mkdir_exist_ok. destruct (os_mkdir f p) as [f1|e] eqn:Hmk.
  - intros [= <-]. by apply os_mkdir_grows.
  - destruct (path_is_dir f p) eqn:Hdir; destruct e; try discriminate;
      by intros [= <-].
Qed.


Lemma mkdir_parents_grows (f f' : fs) (p : path) :
  mkdir_parents f p = Ok f' → f ⊆ f' ∧ path_is_dir f' p = true.
Proof.
  unfold mkdir_parents. generalize (length p) as n. intros n.
  revert f f' p. induction n as [|n IH]; intros f f' p; simpl.
  - destruct (os_mkdir f p) as [f1|e] eqn:Hmk.
    + intros [= <-]. by apply os_mkdir_grows.
    + destruct (path_is_dir f p) eqn:Hdir; destruct e; try discriminate;
        by intros [= <-].
  - destruct (os_mkdir f p) as [f1|e] eqn:Hmk.
    + intros [= <-]. by apply os_mkdir_grows.
    + destruct (path_is_dir f p) eqn:Hdir; destruct e; try discriminate;
        try (by intros [= <-]).
      all: destruct p as [|d p']; try discriminate.
      all: destruct (mkdir_parents_go n f (path_parent (d :: p'))) as [f1|e1] eqn:Hpar;
             simpl; try discriminate.
      all: intros [Hsub Hd]%mkdir_exist_ok_grows.
      all: apply IH in Hpar as [Hsub1 _]; split; [by etrans|done].
Qed.


(** * The loop that looks for a free name *)

(** [p] is the name the scheme picks for [original] in [f]: [original]
    itself if it is free, and otherwise [original] with the smallest
    positive counter whose name is free. *)
Definition smallest_free (f : fs) (original p : path) : Prop :=
  path_exists f p = false
  ∧ (p = original
     ∨ (path_exists f original = true
        ∧ ∃ k, 1 ≤ k ∧ p = with_counter original k
               ∧ ∀ j, 1 ≤ j < k → path_exists f (with_counter original j) = true)).

Lemma while_exists_some fuel f original output_path counter p :
  BatchProcessor.while_exists fuel f original output_path counter = Some p →
  path_exists f p = false
  ∧ (p = output_path
     ∨ (path_exists f output_path = true
        ∧ ∃ k, counter ≤ k ∧ p = with_counter original k
               ∧ ∀ j, counter ≤ j < k
                      → path_exists f (with_counter original j) = true)).
Proof.
  revert output_path counter.
  induction fuel as [|fuel IH]; intros output_path counter; simpl; [done|].
  destruct (path_exists f output_path) eqn:Hout.
  - intros (Hfree & Hp)%IH. split; [done|]. right. split; [done|].
    destruct Hp as [->|(Hc & k & Hk & -> & Hbelow)].
    + exists counter. repeat split; [lia|]. intros j Hj. lia.
    + exists k. repeat split; [lia|]. intros j Hj.
      destruct (decide (j = counter)) as [->|Hne]; [done|]. apply Hbelow. lia.
  - intros [= <-]. auto.
Qed.

Lemma while_exists_none fuel f original output_path counter :
  BatchProcessor.while_exists (S fuel) f original output_path counter = None →
  ∀ k, counter ≤ k < counter + N.of_nat fuel
       → path_exists f (with_counter original k) = true.
Proof.
  revert output_path counter.
  induction fuel as [|fuel IH]; intros output_path counter Hnone k Hk; [lia|].
  cbn [BatchProcessor.while_exists] in Hnone.
  destruct (path_exists f output_path); [|discriminate].
  destruct (path_exists f (with_counter original counter)) eqn:Hc; [|discriminate].
  destruct (decide (k = counter)) as [->|Hne]; [done|].
  apply (IH (with_counter original counter) (counter + 1)); [|lia].
  cbn [BatchProcessor.while_exists]. by rewrite Hc.
Qed.

(** At most [size f] of the numbered candidates can exist: they are
    distinct entries of one directory. *)
Lemma candidates_bounded (f : fs) (original : path) (n : nat) :
  Forall wf_part original →
  (∀ k, 1 ≤ k < 1 + N.of_nat n → path_exists f (with_counter original k) = true) →
  (n ≤ size f)%nat.
Proof.
  intros Hwf Hall. destruct n as [|n']; [lia|]. set (n := S n') in *.
  set (part := fun k => last_part original ++ counter_suffix k).
  assert (Hcand : ∀ k, with_counter original k = removelast original ++ [part k]).
  { intros k. by apply with_counter_spec. }
  assert (Hfirst : path_exists f (with_counter original 1) = true)
    by (apply Hall; lia).
  rewrite Hcand in Hfirst.
  apply child_exists in Hfirst as (q & Hq & _); [|apply suffixed_not_dotdot].
  set (key := fun i : nat => q ++ [part (N.of_nat (S i))]).
  assert (Hdup : NoDup (key <$> seq 0 n)).
  { apply NoDup_fmap_2; [|apply NoDup_seq].
    intros i j [_ Heq]%app_inj_tail. unfold part in Heq.
    apply app_inv_head, counter_suffix_inj in Heq. lia. }
  assert (Hsub : list_to_set (key <$> seq 0 n) ⊆ dom f).
  { intros x Hx. apply elem_of_list_to_set, list_elem_of_fmap in Hx
      as (i & -> & Hi%elem_of_seq).
    apply elem_of_dom.
    assert (Hi' : path_exists f (with_counter original (N.of_nat (S i))) = true)
      by (apply Hall; lia).
    rewrite Hcand in Hi'.
    apply child_exists in Hi' as (q' & Hq' & Hsome); [|apply suffixed_not_dotdot].
    rewrite Hq in Hq'. by injection Hq' as <-. }
  apply subseteq_size in Hsub.
  rewrite size_list_to_set, length_fmap, length_seq, size_dom in Hsub; done.
Qed.

(** The loop always finds a name, within its fuel. *)
Lemma free_path_total (f : fs) (original : path) :
  Forall wf_part original → ∃ p, BatchProcessor.free_path f original = Ok p.
Proof.
  intros Hwf. unfold BatchProcessor.free_path.
  destruct (BatchProcessor.while_exists _ _ _ _ _) as [p|] eqn:Hloop; [by eexists|].
  replace (size f + 2)%nat with (S (S (size f))) in Hloop by lia.
  pose proof (while_exists_none _ _ _ _ _ Hloop) as Hall.
  apply candidates_bounded in Hall; [lia | done].
Qed.

Lemma free_path_spec (f : fs) (original p : path) :
  BatchProcessor.free_path f original = Ok p → smallest_free f original p.
Proof.
  unfold BatchProcessor.free_path.
  destruct (BatchProcessor.while_exists _ _ _ _ _) as [p'|] eqn:Hloop;
    [|discriminate].
  intros [= <-]. by apply while_exists_some in Hloop.
Qed.

(** * Properties of [create_safe_filename] *)

Lemma drop_while_incl (P : N → bool) (s : str) (x : N) :
  In x (drop_while P s) → In x s.
Proof.
  induction s as [|c s IH]; simpl; [done|].
  destruct (P c); [auto|done].
Qed.

Lemma drop_while_end_incl (P : N → bool) (s : str) (x : N) :
  In x (drop_while_end P s) → In x s.
Proof.
  unfold drop_while_end. rewrite <- in_rev. intros Hin%drop_while_incl.
  by apply in_rev.
Qed.

Lemma py_strip_incl (s : str) (x : N) : In x (py_strip s) → In x s.
Proof.
  unfold py_strip. intros Hin%drop_while_end_incl. by eapply drop_while_incl.
Qed.

Lemma take_incl (n : nat) (s : str) (x : N) : In x (take n s) → In x s.
Proof.
  revert n. induction s as [|c s IH]; intros [|n]; simpl; naive_solver.
Qed.

Lemma remove_chars_spec (cs s : str) (x : N) :
  In x (fold_left (fun t c => remove_char c t) cs s) → In x s ∧ ¬ In x cs.
Proof.
  revert s. induction cs as [|c cs IH]; intros s; simpl; [naive_solver|].
  intros [Hin Hcs]%IH. unfold remove_char in Hin.
  apply filter_In in Hin as [Hin Hne]. split; [done|].
  intros [->|?]; [|done]. by rewrite N.eqb_refl in Hne.
Qed.

(** The sanitized title holds none of the invalid characters; in
    particular it has no slash, so it is at most one path part. *)
Lemma safe_filename_valid (title : str) (x : N) :
  In x (create_safe_filename title) → ¬ In x invalid_chars.
Proof.
  unfold create_safe_filename. intros Hin Hbad.
  apply take_incl, py_strip_incl, remove_chars_spec in Hin as [_ Hok]. done.
Qed.


(** A string without a slash is one part, or none if it is empty or [.]. *)
Lemma Path_no_slash (s : str) :
  ¬ In slash s → Path s = [] ∨ (Path s = [s] ∧ wf_part s).
Proof.
  intros Hs. unfold Path. rewrite split_on_no_sep by done. simpl.
  destruct (nonempty s && negb (str_eqb s dot)) eqn:Hkeep; [|by left].
  right. apply keep_part_spec in Hkeep as [? ?]. done.
Qed.

(** * More on resolution: parents of what exists *)

(** Every proper prefix of a location reached by [walk] is a directory. *)
Definition dirs_above (f : fs) (cur : path) : Prop :=
  ∀ n, (n < length cur)%nat → node_at f (take n cur) = Some Dir.

Lemma removelast_take {A} (l : list A) : removelast l = take (length l - 1) l.
Proof.
  induction l as [|a l IH]; [done|].
  destruct l as [|b l']; [done|].
  change (removelast (a :: b :: l')) with (a :: removelast (b :: l')).
  rewrite IH. simpl. by rewrite Nat.sub_0_r.
Qed.

Lemma dirs_above_enter (f : fs) (cur : path) (c : str) :
  dirs_above f cur → node_at f cur = Some Dir → dirs_above f (enter cur c).
Proof.
  intros Habove Hcur n. unfold enter.
  destruct (str_eqb c dotdot).
  - rewrite removelast_take, length_take. intros Hn.
    rewrite take_take. replace (n `min` (length cur - 1))%nat with n by lia.
    apply Habove. lia.
  - rewrite length_app. simpl. intros Hn.
    destruct (decide (n = length cur)) as [->|Hne].
    + by rewrite take_app_length.
    + rewrite take_app_le by lia. apply Habove. lia.
Qed.

Lemma walk_dirs_above (f : fs) (cur p q : path) :
  dirs_above f cur → walk f cur p = Ok q → dirs_above f q.
Proof.
  revert cur. induction p as [|c p IH]; intros cur Habove; simpl.
  - by intros [= <-].
  - destruct (node_at f cur) as [[data|]|] eqn:Hcur; try discriminate.
    apply IH. by apply dirs_above_enter.
Qed.

Lemma resolve_dirs_above (f : fs) (p q : path) :
  resolve f p = Ok q → dirs_above f q.
Proof. apply walk_dirs_above. intros n Hn. simpl in Hn. lia. Qed.

(** The parent of a path that exists is a directory. *)
Lemma parent_of_existing (f : fs) (p : path) :
  path_exists f p = true → path_is_dir f (removelast p) = true.
Proof.
  destruct (decide (p = [])) as [->|Hne]; [done|].
  rewrite (app_removelast_last [] Hne) at 1.
  intros (q & Hq & _)%path_exists_spec. apply path_is_dir_spec.
  unfold resolve in *. rewrite walk_app in Hq.
  destruct (walk f [] (removelast p)) as [q0|e]; simpl in Hq; [|discriminate].
  exists q0. split; [done|]. by destruct (node_at f q0) as [[data|]|].
Qed.

(** [p/..] exists whenever [p] is a directory. *)
Lemma dotdot_exists (f : fs) (p : path) :
  path_is_dir f p = true → path_exists f (p ++ [dotdot]) = true.
Proof.
  intros (q & Hq & Hn)%path_is_dir_spec. apply path_exists_spec.
  exists (removelast q). unfold resolve in *. rewrite walk_app, Hq. simpl.
  rewrite Hn. split; [done|].
  destruct (decide (q = [])) as [->|Hne]; [by eexists|].
  pose proof (walk_dirs_above f [] p q) as Habove.
  rewrite removelast_take, Habove; [by eexists| |done|].
  - intros n Hn'. simpl in Hn'. lia.
  - destruct q; [done|]. simpl. lia.
Qed.

(** * The naming scheme of the two folder functions *)

(** Where the scheme's name lies: directly under a directory, under a part
    that is not [..]; and under [base] itself when [name] is a real part. *)
Lemma free_name_shape (f : fs) (base : path) (name : str) (p : path) :
  Forall wf_part base → ¬ In slash name →
  path_is_dir f base = true →
  smallest_free f (path_join base name) p →
  ∃ parent c,
    p = parent ++ [c] ∧ c ≠ dotdot ∧ path_is_dir f parent = true
    ∧ (Path name ≠ [] → parent = base).
Proof.
  intros Hbase Hname Hdir (Hfree & Hp). unfold path_join in *.
  assert (Hwf : Forall wf_part (base ++ Path name)).
  { apply Forall_app. split; [done | apply Path_wf]. }
  destruct Hp as [->|(Hexists & k & Hk & -> & _)].
  - destruct (Path_no_slash name Hname) as [Hnil|[Hone _]].
    + rewrite Hnil, app_nil_r in Hfree.
      apply path_is_dir_exists in Hdir. congruence.
    + rewrite Hone in *. exists base, name. repeat split; try done.
      intros ->. apply dotdot_exists in Hdir. congruence.
  - rewrite with_counter_spec by done. eexists _, _. split; [reflexivity|].
    split; [apply suffixed_not_dotdot|]. split; [by apply parent_of_existing|].
    intros Hne. destruct (Path_no_slash name Hname) as [Hnil|[Hone _]]; [done|].
    rewrite Hone. apply removelast_last.
Qed.

Section folders.
Context `{Cv2} `{Codecs} `{AiServices}.
Variable self : config.

Definition generated_dir : path := Path (output_folder_path self).
Definition processed_dir : path := Path (processed_folder_path self).


End folders.

(** * Properties of [shutil_move] *)

Lemma strip_prefix_spec (a p r : path) :
  strip_prefix a p = Some r ↔ p = a ++ r.
Proof.
  revert p. induction a as [|c a IH]; intros p; simpl; [naive_solver|].
  destruct p as [|d p]; [naive_solver|].
  destruct (str_eqb c d) eqn:Hcd.
  - apply str_eqb_true in Hcd as ->. rewrite IH. naive_solver.
  - split; [discriminate|]. intros [= -> ->]. by rewrite str_eqb_refl in Hcd.
Qed.

Lemma strip_prefix_app (a r : path) : strip_prefix a (a ++ r) = Some r.
Proof. by apply strip_prefix_spec. Qed.

(** Two locations of which neither is above the other stay apart below. *)
Lemma strip_prefix_apart (a b r : path) :
  strip_prefix a b = None → strip_prefix b a = None →
  strip_prefix a (b ++ r) = None.
Proof.
  revert b. induction a as [|c a IH]; intros b; simpl; [discriminate|].
  destruct b as [|d b]; simpl; [discriminate|].
  destruct (str_eqb c d) eqn:Hcd; [|done].
  apply str_eqb_true in Hcd as ->. rewrite str_eqb_refl. apply IH.
Qed.

Lemma rebase_left (a b r : path) : rebase a b (a ++ r) = b ++ r.
Proof. unfold rebase. by rewrite strip_prefix_app. Qed.

Lemma rebase_right (a b r : path) :
  strip_prefix a b = None → strip_prefix b a = None →
  rebase a b (b ++ r) = a ++ r.
Proof.
  intros Hab Hba. unfold rebase.
  by rewrite (strip_prefix_apart a b r Hab Hba), strip_prefix_app.
Qed.

Lemma rebase_involutive (a b p : path) :
  strip_prefix a b = None → strip_prefix b a = None →
  rebase a b (rebase a b p) = p.
Proof.
  intros Hab Hba. unfold rebase at 2.
  destruct (strip_prefix a p) as [r|] eqn:Ha.
  - apply strip_prefix_spec in Ha as ->. by apply rebase_right.
  - destruct (strip_prefix b p) as [r|] eqn:Hb.
    + apply strip_prefix_spec in Hb as ->. apply rebase_left.
    + unfold rebase. by rewrite Ha, Hb.
Qed.

Lemma rebase_inj (a b : path) :
  strip_prefix a b = None → strip_prefix b a = None →
  Inj (=) (=) (rebase a b).
Proof.
  intros Hab Hba p1 p2 Heq.
  rewrite <- (rebase_involutive a b p1), <- (rebase_involutive a b p2) by done.
  by rewrite Heq.
Qed.

(** A successful move: the source was there, the target was not, and
    afterwards the target holds what the source held, part by part, and
    the source is gone. *)
Lemma shutil_move_ok (f f' : fs) (src dst : path) :
  shutil_move f src dst = Ok f' →
  ∃ qs qd,
    resolve f src = Ok qs ∧ resolve f dst = Ok qd
    ∧ qs ≠ []
    ∧ is_Some (f !! qs) ∧ f !! qd = None
    ∧ (∀ r, f' !! (qd ++ r) = f !! (qs ++ r))
    ∧ (∀ r, f' !! (qs ++ r) = f !! (qd ++ r))
    ∧ f' !! qs = None.
Proof.
  unfold shutil_move.
  destruct (resolve f src) as [qs|e] eqn:Hqs; simpl; [|discriminate].
  destruct (node_at f qs) as [n|] eqn:Hn; simpl; [|discriminate].
  destruct (resolve f dst) as [qd|e] eqn:Hqd; simpl; [|discriminate].
  destruct (node_at f qd) eqn:Hd; [discriminate|].
  destruct (strip_prefix qs qd) eqn:Hsd; [discriminate|]. intros [= <-].
  assert (Hqs_ne : qs ≠ []) by (by intros ->).
  assert (Hqd_ne : qd ≠ []) by (by intros ->).
  rewrite node_at_cons in Hn, Hd by done.
  assert (Hds : strip_prefix qd qs = None).
  { destruct (strip_prefix qd qs) as [r|] eqn:Hr; [|done].
    apply strip_prefix_spec in Hr as Heq.
    destruct r as [|c r].
    - rewrite app_nil_r in Heq. rewrite Heq in Hsd.
      pose proof (strip_prefix_app qd []) as Hself. rewrite app_nil_r in Hself.
      congruence.
    - pose proof (resolve_dirs_above f src qs Hqs (length qd)) as Habove.
      rewrite Heq, take_app_length, length_app in Habove. simpl in Habove.
      rewrite node_at_cons, Hd in Habove by done.
      discriminate Habove. lia. }
  pose proof (rebase_inj qs qd Hsd Hds) as Hinj.
  assert (Hto : ∀ r, (kmap (rebase qs qd) f : fs) !! (qd ++ r) = f !! (qs ++ r)).
  { intros r. rewrite <- (rebase_left qs qd r). apply (lookup_kmap _). }
  assert (Hfrom : ∀ r, (kmap (rebase qs qd) f : fs) !! (qs ++ r) = f !! (qd ++ r)).
  { intros r. rewrite <- (rebase_right qs qd r) by done. apply (lookup_kmap _). }
  exists qs, qd.
  split; [done|]. split; [done|]. split; [done|]. split; [by eexists|].
  split; [done|]. split; [done|]. split; [done|].
  specialize (Hfrom []). by rewrite !app_nil_r, Hd in Hfrom.
Qed.

(** * Fresh names: [create_output_folder] and [move_source_folder] *)

(** The name of a parsed path is a well-formed part, unless the path is
    empty. *)
Lemma path_name_of_Path (s : str) : Path s = [] ∨ wf_part (path_name (Path s)).
Proof.
  pose proof (Path_wf s) as Hwf.
  destruct (decide (Path s = [])) as [Hnil|Hne]; [by left|right].
  rewrite (app_removelast_last [] Hne) in Hwf.
  apply Forall_app in Hwf as [_ Hl]. by inversion Hl.
Qed.

Section fresh_names.
Variable self : config.

(** What [move_source_folder] does: it always returns, and it returns
    [True] exactly when the processed directory could be made and the
    move went through. *)
Lemma move_source_folder_run (source_folder : str) (w : world) :
  ∃ moved f',
    BatchProcessor.move_source_folder self source_folder w
    = (Ok moved, {| w_fs := f'; w_calls := w_calls w;
                    w_log := w_log w ++ [ev_move_source_folder source_folder] |})
    ∧ (moved = true →
       ∃ f1 target,
         mkdir_exist_ok (w_fs w) (processed_dir self) = Ok f1
         ∧ smallest_free f1
             (path_join (processed_dir self) (path_name (Path source_folder)))
             target
         ∧ shutil_move f1 (Path source_folder) target = Ok f')
    ∧ (moved = false → w_fs w ⊆ f').
Proof.
  unfold BatchProcessor.move_source_folder, bindM. rewrite log_run.
  unfold try_except, bindM, lift_fs at 1.
  cbn [add_log set_log w_fs w_calls w_log]. fold (processed_dir self).
  destruct (mkdir_exist_ok (w_fs w) (processed_dir self)) as [f1|e] eqn:Hmk.
  2:{ eexists false, _. split; [reflexivity|]. split; [discriminate|done]. }
  unfold get_fs, liftR. cbn [w_fs w_calls w_log].
  set (original := path_join (processed_dir self) (path_name (Path source_folder))).
  assert (Hwf : Forall wf_part original).
  { apply Forall_app. split; apply Path_wf. }
  destruct (free_path_total f1 original Hwf) as [target Htarget].
  rewrite Htarget. unfold lift_fs. cbn [w_fs w_calls w_log].
  apply mkdir_exist_ok_grows in Hmk as Hgrow.
  destruct (shutil_move f1 (Path source_folder) target) as [f2|e] eqn:Hmove.
  - eexists true, _. split; [reflexivity|]. split; [|discriminate].
    intros _. exists f1, target. split; [done|].
    split; [by apply free_path_spec | done].
  - eexists false, _. split; [reflexivity|]. split; [discriminate|].
    intros _. apply Hgrow.
Qed.


(** A successful move: to a new path of the processed directory, named by
    the scheme, with all the source held. *)
Lemma move_source_folder_fresh (source_folder : str) (w w' : world) :
  BatchProcessor.move_source_folder self source_folder w = (Ok true, w') →
  ∃ f1 target qs qt,
    mkdir_exist_ok (w_fs w) (processed_dir self) = Ok f1
    ∧ smallest_free f1
        (path_join (processed_dir self) (path_name (Path source_folder)))
        target
    ∧ path_parent target = processed_dir self
    ∧ path_exists (w_fs w) target = false
    ∧ resolve f1 (Path source_folder) = Ok qs
    ∧ resolve f1 target = Ok qt
    ∧ (∀ r, w_fs w' !! (qt ++ r) = f1 !! (qs ++ r))
    ∧ w_fs w' !! qs = None.
Proof.
  intros Hrun.
  destruct (move_source_folder_run source_folder w)
    as (moved & f' & Hrun' & Hmoved & _).
  rewrite Hrun in Hrun'. injection Hrun' as <- ->.
  destruct (Hmoved eq_refl) as (f1 & target & Hmk & Hfree & Hmove).
  apply shutil_move_ok in Hmove as Hmoved'.
  destruct Hmoved' as (qs & qt & Hqs & Hqt & Hne & _ & _ & Hto & _ & Hgone).
  apply mkdir_exist_ok_grows in Hmk as Hgrow. destruct Hgrow as [Hsub Hdir].
  exists f1, target, qs, qt. cbn [w_fs].
  split; [done|]. split; [done|]. split.
  { destruct (free_name_shape f1 (processed_dir self)
                (path_name (Path source_folder)) target)
      as (parent & c & -> & _ & _ & Hparent); try done.
    - apply Path_wf.
    - destruct (path_name_of_Path source_folder) as [Hnil|Hwf].
      + rewrite Hnil. unfold path_name. simpl. tauto.
      + apply Hwf.
    - unfold path_parent. rewrite removelast_last. apply Hparent.
      destruct (path_name_of_Path source_folder) as [Hnil|Hwf].
      + rewrite Hnil in Hqs. unfold resolve in Hqs. simpl in Hqs.
        by injection Hqs as <-.
      + by rewrite Path_single. }
  split.
  { destruct (path_exists (w_fs w) target) eqn:Hold; [|done].
    apply (path_exists_mono _ f1) in Hold; [|done].
    destruct Hfree as [Hfree _]. congruence. }
  done.
Qed.

End fresh_names.


Example create_output_folder_scenario :
  run (BatchProcessor.create_output_folder Scenario.cfg (lit "A title!")) Scenario.w0
  = Ok [lit "out"; lit "A title"].
Proof. vm_compute. reflexivity. Qed.

(** A title that sanitizes to nothing names the output directory itself,
    which exists by then: the folder is a sibling of it. *)
Example create_output_folder_empty_title :
  run (BatchProcessor.create_output_folder Scenario.cfg (lit "?!")) Scenario.w0
  = Ok [lit "out_1"].
Proof. vm_compute. reflexivity. Qed.

(** * Calling [create_output_folder] twice *)

Section twice.
Variable self : config.


End twice.



(** * The steps of one attempt *)

Lemma bindM_ok {A B} (m : M A) (k : A → M B) (w w' : world) (b : B) :
  bindM m k w = (Ok b, w') →
  ∃ a w1, m w = (Ok a, w1) ∧ k a w1 = (Ok b, w').
Proof.
  unfold bindM. destruct (m w) as [[a|e] w1]; [eauto | discriminate].
Qed.

(** The calls of the pipeline itself, as opposed to the requests and image
    operations made inside them and to the bookkeeping of the retry loop. *)
Definition pipeline_call (e : event) : bool :=
  match e with
  | ev_validate_input_folder _ | ev_read_document _ | ev_rewrite_content _ _
  | ev_generate_title _ _ | ev_create_output_folder _ | ev_process_images _ _
  | ev_write_text _ _ | ev_move_source_folder _ => true
  | _ => false
  end.

Definition is_request (e : event) : Prop :=
  match e with
  | ev_request _ _ => True
  | _ => False
  end.

Lemma no_calls_in_requests (t : list event) :
  Forall is_request t → List.filter pipeline_call t = [].
Proof.
  intros Ht. apply filter_nil_iff. intros e He.
  rewrite Forall_forall in Ht. apply list_elem_of_In, Ht in He. by destruct e.
Qed.

Lemma no_calls_in_images (t : list event) :
  Forall (fun e => image_event e = true) t → List.filter pipeline_call t = [].
Proof.
  intros Ht. apply filter_nil_iff. intros e He.
  rewrite Forall_forall in Ht. apply list_elem_of_In, Ht in He. by destruct e.
Qed.

Section steps.
Context `{Cv2} `{Codecs} `{AiServices}.
Variable self : config.

Lemma validate_input_folder_log folder_path w r w' :
  BatchProcessor.validate_input_folder folder_path w = (r, w') →
  w' = add_log w [ev_validate_input_folder folder_path].
Proof.
  unfold BatchProcessor.validate_input_folder, bindM. rewrite log_run.
  unfold get_fs. cbn [w_fs add_log set_log].
  destruct (negb _); unfold ret, liftR; by intros [= _ <-].
Qed.

Lemma read_document_log doc_path w r w' :
  BatchProcessor.read_document doc_path w = (r, w') →
  w' = add_log w [ev_read_document doc_path].
Proof.
  unfold BatchProcessor.read_document, bindM. rewrite log_run.
  unfold get_fs. destruct doc_path as [doc_path|]; [|by intros [= _ <-]].
  repeat (destruct (str_eqb _ _)); unfold ret, liftR; by intros [= _ <-].
Qed.

Lemma rewrite_content_log text prompt w r w' :
  ai_services.rewrite_content text prompt w = (r, w') →
  ∃ t, w_log w' = w_log w ++ ev_rewrite_content text prompt :: t
       ∧ Forall is_request t ∧ w_fs w' = w_fs w.
Proof.
  unfold ai_services.rewrite_content.
  unfold bindM, try_except, request, liftR, raise. rewrite log_run. simpl.
  repeat match goal with
         | |- context [openrouter_create ?n ?q] =>
             destruct (openrouter_create n q); simpl
         | |- context [siliconflow_post ?n ?q] =>
             destruct (siliconflow_post n q); simpl
         | |- context [moonshot_create ?n ?q] =>
             destruct (moonshot_create n q); simpl
         | |- context [ai_services.first_choice_content ?c] =>
             destruct (ai_services.first_choice_content c); simpl
         | |- context [ai_services.response_content ?c] =>
             destruct (ai_services.response_content c); simpl
         end.
  all: intros [= _ <-]; simpl; rewrite <- ?app_assoc; simpl.
  all: eexists; (split; [reflexivity|]); split; try done; repeat constructor.
Qed.

Lemma generate_title_log text prompt w r w' :
  ai_services.generate_title text prompt w = (r, w') →
  ∃ t, w_log w' = w_log w ++ ev_generate_title text prompt :: t
       ∧ Forall is_request t ∧ w_fs w' = w_fs w
       ∧ (∀ v, r = Ok v → v = JNull ∨ ∃ s, v = JStr s).
Proof.
  unfold ai_services.generate_title.
  unfold bindM, try_except, request, liftR, raise. rewrite log_run. simpl.
  destruct (moonshot_create _ _) as [[|[s|] c]|e]; simpl;
    intros [= <- <-]; simpl; rewrite <- ?app_assoc; simpl;
    eexists; (split; [reflexivity|]); (split; [repeat constructor|]);
    (split; [done|]); intros v [= <-]; eauto.
Qed.

Lemma create_output_folder_log title w r w' :
  BatchProcessor.create_output_folder self title w = (r, w') →
  w_log w' = w_log w ++ [ev_create_output_folder title] ∧ w_calls w' = w_calls w.
Proof.
  unfold BatchProcessor.create_output_folder, bindM. rewrite log_run.
  unfold lift_fs, get_fs, liftR, ret. cbn [add_log set_log w_fs w_calls w_log].
  destruct (mkdir_exist_ok _ _) as [f1|e]; [|by intros [= _ <-]].
  cbn [w_fs]. destruct (BatchProcessor.free_path _ _) as [p|e];
    [|by intros [= _ <-]].
  cbn [w_fs]. destruct (mkdir_parents _ _) as [f2|e]; by intros [= _ <-].
Qed.

Lemma process_images_log image_paths output_dir w r w' :
  BatchProcessor.process_images image_paths output_dir w = (r, w') →
  ∃ t, w_log w' = w_log w ++ ev_process_images image_paths output_dir :: t
       ∧ Forall (fun e => image_event e = true) t.
Proof.
  unfold BatchProcessor.process_images, bindM. rewrite log_run.
  intros (t & Ht & _ & Hev & _)%process_images_loop_log.
  exists t. simpl in Ht. by rewrite Ht, <- app_assoc.
Qed.

Lemma write_text_log file content w r w' :
  BatchProcessor.write_text file content w = (r, w') →
  w_log w' = w_log w ++ [ev_write_text file content].
Proof.
  unfold BatchProcessor.write_text, bindM. rewrite log_run.
  unfold lift_fs at 1. cbn [add_log set_log w_fs w_calls w_log].
  destruct (write_file _ _ _) as [f1|e]; [|by intros [= _ <-]].
  destruct content; unfold raise; try by intros [= _ <-].
  destruct (encode_utf8 s) as [data|]; unfold raise; [|by intros [= _ <-]].
  unfold lift_fs. cbn [w_fs w_calls w_log].
  destruct (write_file _ _ _); by intros [= _ <-].
Qed.
End steps.

(** * One successful attempt *)

Section pipeline.
Context `{Cv2} `{Codecs} `{AiServices}.
Variable self : config.

(** The steps of an attempt that ends well, each on the world the step
    before it left and on the values the steps before it returned, and
    the pipeline's own calls in the order they were logged. *)
Definition pipeline_steps (folder_path : str) (w w' : world) : Prop :=
  ∃ v original rewritten title output_dir n moved w1 w2 w3 w4 w5 w6 w7 w8,
    BatchProcessor.validate_input_folder folder_path w = (Ok v, w1)
    ∧ valid v = true
    ∧ BatchProcessor.read_document (document v) w1 = (Ok (Some original), w2)
    ∧ original ≠ []
    ∧ ai_services.rewrite_content original (rewrite_prompt self) w2
      = (Ok rewritten, w3)
    ∧ truthy rewritten = true
    ∧ ai_services.generate_title rewritten (title_prompt self) w3
      = (Ok (JStr title), w4)
    ∧ title ≠ []
    ∧ BatchProcessor.create_output_folder self title w4 = (Ok output_dir, w5)
    ∧ BatchProcessor.process_images (images v) output_dir w5 = (Ok n, w6)
    ∧ n ≠ 0
    ∧ BatchProcessor.write_text (path_join output_dir BatchProcessor.content_name)
        rewritten w6 = (Ok tt, w7)
    ∧ BatchProcessor.write_text (path_join output_dir BatchProcessor.title_name)
        (JStr title) w7 = (Ok tt, w8)
    ∧ BatchProcessor.move_source_folder self folder_path w8 = (Ok moved, w')
    ∧ ∃ t,
        w_log w' = w_log w ++ t
        ∧ List.filter pipeline_call t
          = [ev_validate_input_folder folder_path;
             ev_read_document (document v);
             ev_rewrite_content original (rewrite_prompt self);
             ev_generate_title rewritten (title_prompt self);
             ev_create_output_folder title;
             ev_process_images (images v) output_dir;
             ev_write_text (path_join output_dir BatchProcessor.content_name)
               rewritten;
             ev_write_text (path_join output_dir BatchProcessor.title_name)
               (JStr title);
             ev_move_source_folder folder_path].

Lemma attempt_body_success (folder_path : str) (w w' : world) :
  BatchProcessor.attempt_body self folder_path w = (Ok true, w') →
  pipeline_steps folder_path w w'.
Proof.
  unfold BatchProcessor.attempt_body. intros Hrun.
  apply bindM_ok in Hrun as (v & w1 & Hvalidate & Hrun).
  destruct (valid v) eqn:Hvalid; cbn [negb] in Hrun; [|discriminate].
  apply bindM_ok in Hrun as (content & w2 & Hread & Hrun).
  destruct content as [[|c0 original']|]; try discriminate.
  set (original := c0 :: original') in *.
  apply bindM_ok in Hrun as (rewritten & w3 & Hrewrite & Hrun).
  destruct (truthy rewritten) eqn:Hrewritten; cbn [negb] in Hrun; [|discriminate].
  apply bindM_ok in Hrun as (title_value & w4 & Htitle & Hrun).
  destruct (truthy title_value) eqn:Htruthy; cbn [negb] in Hrun; [|discriminate].
  destruct title_value as [| | |title| |]; try discriminate.
  apply bindM_ok in Hrun as (output_dir & w5 & Hcreate & Hrun).
  apply bindM_ok in Hrun as (n & w6 & Himages & Hrun).
  destruct (N.eqb_spec n 0) as [|Hn]; [discriminate|].
  apply bindM_ok in Hrun as ([] & w7 & Hwrite1 & Hrun).
  apply bindM_ok in Hrun as ([] & w8 & Hwrite2 & Hrun).
  apply bindM_ok in Hrun as (moved & w9 & Hmove & Hrun).
  injection Hrun as <-.
  exists v, original, rewritten, title, output_dir, n, moved,
    w1, w2, w3, w4, w5, w6, w7, w8.
  repeat (split; [done || (by destruct title) |]).
  apply validate_input_folder_log in Hvalidate as ->.
  apply read_document_log in Hread as ->.
  apply rewrite_content_log in Hrewrite as (t3 & Hlog3 & Hreq3 & _).
  apply generate_title_log in Htitle as (t4 & Hlog4 & Hreq4 & _).
  apply (create_output_folder_log self) in Hcreate as [Hlog5 _].
  apply process_images_log in Himages as (t6 & Hlog6 & Hev6).
  apply write_text_log in Hwrite1 as Hlog7.
  apply write_text_log in Hwrite2 as Hlog8.
  destruct (move_source_folder_run self folder_path w8)
    as (moved' & f' & Hmove' & _).
  rewrite Hmove in Hmove'. injection Hmove' as _ ->. cbn [w_log].
  rewrite Hlog8, Hlog7, Hlog6, Hlog5, Hlog4, Hlog3. cbn [add_log set_log w_log].
  eexists. rewrite <- !app_assoc. split; [reflexivity|].
  repeat first [rewrite List.filter_app
               | progress cbn [List.filter app pipeline_call]].
  rewrite (no_calls_in_requests t3), (no_calls_in_requests t4),
    (no_calls_in_images t6) by done.
  reflexivity.
Qed.
End pipeline.

(** * The retry loop *)

Section retry.
Context `{Cv2} `{Codecs} `{AiServices}.
Variable self : config.

(** Attempts [i], ..., [j - 1] each ended in an exception and were each
    followed by a sleep of two seconds; the world goes from [w] to [w']. *)
Inductive failed_attempts (folder_path : str) : nat → nat → world → world → Prop :=
| failed_none i w : failed_attempts folder_path i i w w
| failed_next i j w e w1 w' :
    BatchProcessor.attempt_body self folder_path (add_log w [ev_attempt i])
    = (Raise e, w1) →
    failed_attempts folder_path (S i) j (add_log w1 [ev_sleep 2]) w' →
    failed_attempts folder_path i j w w'.

(** How the last attempt decides what the function returns. *)
Definition decides (max_retries : Z) (k : nat) (outcome : result bool) (b : bool)
  : Prop :=
  match outcome with
  | Ok returned => b = returned
  | Raise _ => Z.of_nat k = (max_retries - 1)%Z ∧ b = false
  end.

Lemma retry_loop_run (folder_path : str) (max_retries : Z) (n : nat) :
  ∀ i w,
    Z.of_nat (i + n) = max_retries → (0 < n)%nat →
    ∃ b w' k wk outcome,
      BatchProcessor.retry_loop self folder_path max_retries (seq i n) w
      = (Ok b, w')
      ∧ (i ≤ k < i + n)%nat
      ∧ failed_attempts folder_path i k w wk
      ∧ BatchProcessor.attempt_body self folder_path (add_log wk [ev_attempt k])
        = (outcome, w')
      ∧ decides max_retries k outcome b.
Proof.
  induction n as [|n IH]; intros i w Hmax Hn; [lia|].
  cbn [seq BatchProcessor.retry_loop]. unfold bindM at 1. rewrite log_run.
  unfold bindM at 1, attempt_of.
  destruct (BatchProcessor.attempt_body self folder_path (add_log w [ev_attempt i]))
    as [[returned|e] w1] eqn:Hbody.
  - exists returned, w1, i, w, (Ok returned).
    split; [done|]. split; [lia|]. split; [constructor|]. done.
  - destruct (Z.eqb_spec (Z.of_nat i) (max_retries - 1)) as [Hlast|Hmore].
    + exists false, w1, i, w, (Raise e).
      split; [done|]. split; [lia|]. split; [constructor|]. done.
    + unfold bindM, BatchProcessor.sleep. rewrite log_run.
      destruct (IH (S i) (add_log w1 [ev_sleep 2]))
        as (b & w' & k & wk & outcome & Hrun & Hk & Hfailed & Hlast & Hdec);
        [lia | lia |].
      exists b, w', k, wk, outcome.
      split; [done|]. split; [lia|]. split; [by econstructor|]. done.
Qed.

(** A [False] out of the [try] block is a failed validation. *)
Lemma attempt_body_false (folder_path : str) (w w' : world) :
  BatchProcessor.attempt_body self folder_path w = (Ok false, w') →
  ∃ v, BatchProcessor.validate_input_folder folder_path w = (Ok v, w')
       ∧ valid v = false.
Proof.
  unfold BatchProcessor.attempt_body. intros Hrun.
  apply bindM_ok in Hrun as (v & w1 & Hvalidate & Hrun).
  destruct (valid v) eqn:Hvalid; cbn [negb] in Hrun.
  2:{ injection Hrun as <-. eauto. }
  apply bindM_ok in Hrun as (content & w2 & Hread & Hrun).
  destruct content as [[|c0 original']|]; try discriminate.
  apply bindM_ok in Hrun as (rewritten & w3 & Hrewrite & Hrun).
  destruct (truthy rewritten); cbn [negb] in Hrun; [|discriminate].
  apply bindM_ok in Hrun as (title_value & w4 & Htitle & Hrun).
  destruct (truthy title_value); cbn [negb] in Hrun; [|discriminate].
  destruct title_value as [| | |title| |]; try discriminate.
  apply bindM_ok in Hrun as (output_dir & w5 & Hcreate & Hrun).
  apply bindM_ok in Hrun as (n & w6 & Himages & Hrun).
  destruct (N.eqb n 0); [discriminate|].
  apply bindM_ok in Hrun as ([] & w7 & Hwrite1 & Hrun).
  apply bindM_ok in Hrun as ([] & w8 & Hwrite2 & Hrun).
  apply bindM_ok in Hrun as (moved & w9 & Hmove & Hrun).
  discriminate.
Qed.

Lemma process_folder_with_retry_run (folder_path : str) (max_retries : Z)
    (w : world) :
  ∃ b w',
    BatchProcessor.process_folder_with_retry self folder_path max_retries w
    = (Ok b, w')
    ∧ ((max_retries ≤ 0)%Z ∧ b = false ∧ w' = w
       ∨ (0 < max_retries)%Z
         ∧ ∃ k wk outcome,
             (Z.of_nat k < max_retries)%Z
             ∧ failed_attempts folder_path 0 k w wk
             ∧ BatchProcessor.attempt_body self folder_path
                 (add_log wk [ev_attempt k]) = (outcome, w')
             ∧ decides max_retries k outcome b
             ∧ (outcome = Ok false →
                ∃ v, BatchProcessor.validate_input_folder folder_path
                       (add_log wk [ev_attempt k]) = (Ok v, w')
                     ∧ valid v = false)).
Proof.
  unfold BatchProcessor.process_folder_with_retry.
  destruct (Z.le_gt_cases max_retries 0) as [Hnone|Hsome].
  - exists false, w. replace (Z.to_nat max_retries) with 0%nat by lia.
    split; [done|]. left. done.
  - destruct (retry_loop_run folder_path max_retries (Z.to_nat max_retries) 0%nat w)
      as (b & w' & k & wk & outcome & Hrun & Hk & Hfailed & Hlast & Hdec);
      [lia | lia |].
    exists b, w'. split; [done|]. right. split; [lia|].
    exists k, wk, outcome. split; [lia|]. split; [done|]. split; [done|].
    split; [done|]. intros ->. by apply attempt_body_false.
Qed.

(** C2, as the code has it.  [process_folder_with_retry] always returns.
    With no attempt allowed it returns [False] at once.  Otherwise every
    attempt that ends in an exception, except attempt number
    [max_retries], is followed by a sleep of two seconds and by the next
    attempt, so at most [max_retries] attempts are made; an attempt that
    returns ends the loop with its value, and it returns [False] only
    when the validation of the folder failed, which is not retried.  The
    function returns [False] exactly when the last attempt made returned
    [False] or was attempt number [max_retries] and ended in an
    exception. *)
Theorem retry_bounded (folder_path : str) (max_retries : Z) (w : world) :
  ∃ b w',
    BatchProcessor.process_folder_with_retry self folder_path max_retries w
    = (Ok b, w')
    ∧ ((max_retries ≤ 0)%Z ∧ b = false ∧ w' = w
       ∨ (0 < max_retries)%Z
         ∧ ∃ k wk outcome,
             (Z.of_nat k < max_retries)%Z
             ∧ failed_attempts folder_path 0 k w wk
             ∧ BatchProcessor.attempt_body self folder_path
                 (add_log wk [ev_attempt k]) = (outcome, w')
             ∧ decides max_retries k outcome b
             ∧ (outcome = Ok false →
                ∃ v, BatchProcessor.validate_input_folder folder_path
                       (add_log wk [ev_attempt k]) = (Ok v, w')
                     ∧ valid v = false)).
Proof. apply process_folder_with_retry_run. Qed.

(** A run that returns [True] ends with a successful attempt. *)
Lemma success_last_attempt (folder_path : str) (max_retries : Z) (w w' : world) :
  BatchProcessor.process_folder_with_retry self folder_path max_retries w
  = (Ok true, w') →
  ∃ k wk,
    (Z.of_nat k < max_retries)%Z
    ∧ failed_attempts folder_path 0 k w wk
    ∧ BatchProcessor.attempt_body self folder_path (add_log wk [ev_attempt k])
      = (Ok true, w').
Proof.
  intros Hrun.
  destruct (process_folder_with_retry_run folder_path max_retries w)
    as (b & w'' & Hrun' & [(_ & Hb & _)|(_ & k & wk & outcome & Hk & Hf & Hlast & Hdec & _)]);
    rewrite Hrun in Hrun'; injection Hrun' as <- <-; [discriminate|].
  exists k, wk. split; [done|]. split; [done|].
  destruct outcome as [returned|e]; simpl in Hdec.
  - by subst.
  - by destruct Hdec.
Qed.
End retry.

(** * A run that returns [True] *)

Section success.
Context `{Cv2} `{Codecs} `{AiServices}.
Variable self : config.

Lemma success_steps (folder_path : str) (max_retries : Z) (w w' : world) :
  BatchProcessor.process_folder_with_retry self folder_path max_retries w
  = (Ok true, w') →
  ∃ k wk,
    failed_attempts self folder_path 0 k w wk
    ∧ pipeline_steps self folder_path (add_log wk [ev_attempt k]) w'.
Proof.
  intros (k & wk & _ & Hfailed & Hlast)%success_last_attempt.
  exists k, wk. split; [done|]. by apply attempt_body_success.
Qed.


(** C5, as the code has it.  A run that returns [True] ended with a call
    of [move_source_folder].  When that call returned [True], the source
    folder and all it held is at a path in the processed directory that
    did not exist before, and no longer where it was.  When it returned
    [False], the run returns [True] all the same and nothing was
    removed. *)
Theorem success_then_move_attempted
    (folder_path : str) (max_retries : Z) (w w' : world) :
  BatchProcessor.process_folder_with_retry self folder_path max_retries w
  = (Ok true, w') →
  ∃ w8 moved,
    BatchProcessor.move_source_folder self folder_path w8 = (Ok moved, w')
    ∧ (moved = true →
       ∃ f1 target qs qt,
         mkdir_exist_ok (w_fs w8) (processed_dir self) = Ok f1
         ∧ path_parent target = processed_dir self
         ∧ path_exists (w_fs w8) target = false
         ∧ resolve f1 (Path folder_path) = Ok qs
         ∧ resolve f1 target = Ok qt
         ∧ (∀ r, w_fs w' !! (qt ++ r) = f1 !! (qs ++ r))
         ∧ w_fs w' !! qs = None)
    ∧ (moved = false → w_fs w8 ⊆ w_fs w').
Proof.
  intros (k & wk & _ & Hsteps)%success_steps.
  destruct Hsteps as (v & original & rewritten & title & output_dir & n & moved
    & w1 & w2 & w3 & w4 & w5 & w6 & w7 & w8 & Hsteps).
  do 13 (destruct Hsteps as [_ Hsteps]). destruct Hsteps as [Hmove _].
  exists w8, moved. split; [done|]. split.
  - intros ->.
    destruct (move_source_folder_fresh self folder_path w8 w' Hmove)
      as (f1 & target & qs & qt & Hmk & _ & Hparent & Hnew & Hqs & Hqt & Hto & Hgone).
    exists f1, target, qs, qt. done.
  - intros ->.
    destruct (move_source_folder_run self folder_path w8)
      as (moved' & f' & Hrun & _ & Hkept).
    rewrite Hmove in Hrun. injection Hrun as <- ->. cbn [w_fs]. by apply Hkept.
Qed.
End success.

(** ** The scenario, run *)

Module Runs.
Import Scenario.

Definition process := @BatchProcessor.process_folder_with_retry
                        toy_cv2 toy_codecs all_up cfg.

(** C2 as stated fails: an attempt that fails the validation is not
    repeated.  With three attempts allowed, the empty folder gets one
    attempt, no sleep, and [False]. *)
Lemma failed_validation_is_not_retried :
  process (lit "in2") 3 w_empty_folder
  = (Ok false,
     add_log w_empty_folder [ev_attempt 0; ev_validate_input_folder (lit "in2")]).
Proof. vm_compute. reflexivity. Qed.

(** C5 as stated fails: with a regular file where the processed directory
    should be, the run returns [True] and the source folder is where it
    was. *)
Lemma success_without_archive :
  let r := process (lit "in1") 3 w_blocked in
  fst r = Ok true
  ∧ path_is_dir (w_fs (snd r)) [lit "in1"] = true
  ∧ path_is_dir (w_fs (snd r)) [lit "done"] = false
  ∧ path_exists (w_fs (snd r)) [lit "done"; lit "in1"] = false.
Proof. vm_compute. repeat split. Qed.

(** On the plain scenario the source folder is moved. *)
Example success_with_archive :
  let r := process (lit "in1") 3 w0 in
  fst r = Ok true
  ∧ path_exists (w_fs (snd r)) [lit "in1"] = false
  ∧ path_is_dir (w_fs (snd r)) [lit "done"; lit "in1"] = true
  ∧ read_file (w_fs (snd r)) [lit "out"; lit "A title"; BatchProcessor.title_name]
    = Ok (lit "A title!").
Proof. vm_compute. repeat split. Qed.

(** With every provider down, three attempts are made, with a sleep after
    the first and after the second, and the run returns [False]. *)
Example all_down_three_attempts :
  let r := @BatchProcessor.process_folder_with_retry
             toy_cv2 toy_codecs all_down cfg (lit "in1") 3 w0 in
  fst r = Ok false
  ∧ List.filter (fun e => match e with
                          | ev_attempt _ | ev_sleep _ => true
                          | _ => false
                          end) (w_log (snd r))
    = [ev_attempt 0; ev_sleep 2; ev_attempt 1; ev_sleep 2; ev_attempt 2].
Proof. vm_compute. repeat split. Qed.
End Runs.


Lemma success_then_move_attempted_witness :
  ∃ w8 moved,
    BatchProcessor.move_source_folder Scenario.cfg (lit "in1") w8
    = (Ok moved, snd (Runs.process (lit "in1") 3 Scenario.w0)).
Proof.
  destruct (@success_then_move_attempted Scenario.toy_cv2 Scenario.toy_codecs
              Scenario.all_up Scenario.cfg (lit "in1") 3 Scenario.w0
              (snd (Runs.process (lit "in1") 3 Scenario.w0)))
    as (w8 & moved & Hmove & _).
  - vm_compute. reflexivity.
  - exists w8, moved. exact Hmove.
Defined.






(** ** The fallback on scripted services *)

Module Fallbacks.
Import Scenario.

(** OpenRouter answers with no choice at all, SiliconFlow with a body. *)
#[local] Instance first_empty : AiServices := {|
  openrouter_create := fun _ _ => Ok [];
  siliconflow_post := @siliconflow_post all_up;
  moonshot_create := @moonshot_create all_up
|}.

(** Only Moonshot is up; SiliconFlow answers with a status that is not a
    success. *)
#[local] Instance last_only : AiServices := {|
  openrouter_create := fun _ _ => Raise (ClientError (lit "down"));
  siliconflow_post := fun _ _ => Ok {| status_ok := false; body_json := None |};
  moonshot_create := fun _ _ => Ok [Some (lit "kimi")]
|}.

Definition w_start : world := {| w_fs := ∅; w_calls := 0; w_log := [] |}.

Example second_tier_answers :
  run (@ai_services.rewrite_content first_empty (lit "text") (lit "prompt")) w_start
  = Ok (JStr (lit "backup")).
Proof. vm_compute. reflexivity. Qed.

Example third_tier_answers :
  run (@ai_services.rewrite_content last_only (lit "text") (lit "prompt")) w_start
  = Ok (JStr (lit "kimi")).
Proof. vm_compute. reflexivity. Qed.

Example all_tiers_fail :
  run (@ai_services.rewrite_content all_down (lit "text") (lit "prompt")) w_start
  = Raise (AllModelsFailed (ClientError (lit "down")) (ClientError (lit "down"))
             (ClientError (lit "down"))).
Proof. vm_compute. reflexivity. Qed.
End Fallbacks.


(** * Further properties of the code *)

(** ** [create_safe_filename] *)

Lemma drop_while_head (P : N → bool) (s : str) (c : N) (rest : str) :
  drop_while P s = c :: rest → P c = false.
Proof.
  induction s as [|d s IH]; simpl; [done|].
  destruct (P d) eqn:Hd; [done|]. by intros [= <- _].
Qed.

Lemma drop_while_suffix (P : N → bool) (s : str) :
  ∃ dropped, s = dropped ++ drop_while P s.
Proof.
  induction s as [|d s [dropped IH]]; simpl; [by exists []|].
  destruct (P d).
  - exists (d :: dropped). simpl. by f_equal.
  - by exists [].
Qed.

Lemma drop_while_end_prefix (P : N → bool) (s : str) :
  ∃ dropped, s = drop_while_end P s ++ dropped.
Proof.
  unfold drop_while_end.
  destruct (drop_while_suffix P (rev s)) as [dropped Heq].
  exists (rev dropped). rewrite <- rev_app_distr, <- Heq. by rewrite rev_involutive.
Qed.

Lemma py_strip_head (s : str) (c : N) (rest : str) :
  py_strip s = c :: rest → is_space c = false.
Proof.
  unfold py_strip. intros Heq.
  destruct (drop_while_end_prefix is_space (drop_while is_space s)) as [dropped Hd].
  rewrite Heq in Hd. simpl in Hd. by apply drop_while_head in Hd.
Qed.

(** The file name made from a title is at most 100 characters long, holds
    none of the nine invalid characters, and does not start with white
    space. *)
Theorem create_safe_filename_safe (title : str) :
  (length (create_safe_filename title) ≤ 100)%nat
  ∧ (∀ c, In c (create_safe_filename title) → ¬ In c invalid_chars)
  ∧ (∀ c rest, create_safe_filename title = c :: rest → is_space c = false).
Proof.
  split; [|split].
  - unfold create_safe_filename. rewrite length_take. lia.
  - apply safe_filename_valid.
  - unfold create_safe_filename. intros c rest Heq.
    destruct (py_strip _) as [|d stripped] eqn:Hstrip; [done|].
    simpl in Heq. injection Heq as <- _. by apply py_strip_head in Hstrip.
Qed.

(** The cut to 100 characters comes last, so white space can be left at
    the end. *)
Example safe_filename_trailing_space :
  List.last (create_safe_filename (repeat 97 99 ++ lit " b")) 0 = 32.
Proof. vm_compute. reflexivity. Qed.

(** ** [crop_bottom] *)

(** [crop_bottom] takes at least one row off every image that has one. *)
Theorem crop_bottom_shrinks (image : ndarray) :
  image ≠ [] →
  (length (ImageProcessor.crop_bottom image) < length image)%nat.
Proof.
  intros Hne. rewrite crop_bottom_length.
  assert (0 < length image)%nat by (destruct image; [done | simpl; lia]).
  assert (Z.of_nat (length image) * 19 / 20 < Z.of_nat (length image))%Z.
  { apply Z.div_lt_upper_bound; lia. }
  pose proof (crop_height_le (Z.of_nat (length image))). lia.
Qed.

Lemma crop_bottom_shrinks_witness :
  (length (ImageProcessor.crop_bottom [[[1%Z]]]) < length [[[1%Z]]])%nat.
Proof. apply crop_bottom_shrinks. discriminate. Defined.

